(** * dali_backend gRPC demonstration client

    A shallow embedding of [client/dali_grpc_client.py]: the Python functions
    of the client are Rocq functions in a small monad [py] that records the
    events a run performs (network, filesystem, stdout, stderr) and how the
    run ends (a value, an exception, or [sys.exit]).  The libraries the client
    calls (argparse, os, numpy, tritonclient, cv2) are modelled as far as the
    client uses them; everything the outside world decides (the filesystem,
    the server's answers, the image codec, the clock) is a field of [World]. *)

From Stdlib Require Import String Ascii DecimalString.
From Stdlib Require Import List ZArith Lia Bool Arith.
From Stdlib Require Import Strings.Byte.
Import ListNotations.
Open Scope string_scope.
Open Scope list_scope.

(** ** Python runtime: exceptions, [sys.exit], and the trace of a run *)

Inductive exc_class :=
| ValueError | TypeError | IndexError | AssertionError | AxisError
| FileNotFoundError | NotADirectoryError | IsADirectoryError
| cv2_error | InferenceServerException.

(** An exception object: its class and [str(e)]. *)
Record exception := Exc { exc_type : exc_class; str : string }.

(** How a piece of Python code ends. [SystemExit code] is what [sys.exit(code)]
    raises; it is not an [Exception], so [except Exception] lets it through. *)
Inductive outcome (A : Type) :=
| Return (a : A)
| Raise (e : exception)
| SystemExit (code : option Z).
Arguments Return {A} a.
Arguments Raise {A} e.
Arguments SystemExit {A} code.

(** The tensors sent to the server: a stack of uint8 rows, or (after client
    side preprocessing) a stack of float tensors of an outside type [F]. *)
Inductive batch_data (F : Type) :=
| UINT8_data (rows : list (list byte))
| FP32_data (samples : list F).
Arguments UINT8_data {F} rows.
Arguments FP32_data {F} samples.

Record InferInput (F : Type) := mkInferInput {
  in_name : string;
  in_shape : list nat;
  in_datatype : string;
  in_data : option (batch_data F)
}.
Arguments mkInferInput {F}.
Arguments in_name {F}.
Arguments in_shape {F}.
Arguments in_datatype {F}.
Arguments in_data {F}.

Record InferRequestedOutput := mkInferRequestedOutput { out_name : string }.

(** What a run does to the outside, in order. *)
Inductive event (F : Type) :=
| EvConnect (url : string) (verbose : bool)
| EvListdir (path : option string)
| EvIsfile (path : option string)
| EvOpen (path : string)
| EvInfer (model_name : string) (inputs : list (InferInput F))
          (outputs : list InferRequestedOutput)
| EvStatistics (model_name : string)
| EvPrint (line : string)
| EvStderr (line : string).
Arguments EvConnect {F}.
Arguments EvListdir {F}.
Arguments EvIsfile {F}.
Arguments EvOpen {F}.
Arguments EvInfer {F}.
Arguments EvStatistics {F}.
Arguments EvPrint {F}.
Arguments EvStderr {F}.

(** A computation: the events it performed and its outcome. *)
Definition py (F A : Type) : Type := list (event F) * outcome A.

Definition trace {F A} (m : py F A) : list (event F) := fst m.
Definition result {F A} (m : py F A) : outcome A := snd m.

Definition ret {F A} (a : A) : py F A := ([], Return a).
Definition raise {F A} (c : exc_class) (msg : string) : py F A := ([], Raise (Exc c msg)).
Definition sys_exit {F A} (code : option Z) : py F A := ([], SystemExit code).
Definition emit {F} (e : event F) : py F unit := ([e], Return tt).

Definition bind {F A B} (m : py F A) (f : A -> py F B) : py F B :=
  match m with
  | (t, Return a) => let (t', r) := f a in (t ++ t', r)
  | (t, Raise e) => (t, Raise e)
  | (t, SystemExit c) => (t, SystemExit c)
  end.

Declare Scope py_scope.
Delimit Scope py_scope with py.
Notation "x <- m ;; k" := (bind m (fun x => k))
  (at level 61, m at next level, right associativity) : py_scope.
Notation "m ;; k" := (bind m (fun _ => k))
  (at level 61, right associativity) : py_scope.
Open Scope py_scope.

(** [try: body / except Exception as e: handler e]. *)
Definition try_except {F A} (body : py F A) (handler : exception -> py F A) : py F A :=
  match body with
  | (t, Raise e) => let (t', r) := handler e in (t ++ t', r)
  | other => other
  end.

(** [assert cond, msg]. *)
Definition assert_ {F} (cond : bool) (msg : string) : py F unit :=
  if cond then ret tt else raise AssertionError msg.

(** [for x in xs: body x]. *)
Fixpoint for_each {F A} (xs : list A) (body : A -> py F unit) : py F unit :=
  match xs with
  | [] => ret tt
  | x :: rest => body x ;; for_each rest body
  end.

(** [list(map(f, xs))] for an [f] that may raise. *)
Fixpoint map_py {F A B} (f : A -> py F B) (xs : list A) : py F (list B) :=
  match xs with
  | [] => ret []
  | x :: rest => y <- f x ;; ys <- map_py f rest ;; ret (y :: ys)
  end.

(** A loop that carries the variables its body updates. *)
Fixpoint fold_py {F A S} (body : S -> A -> py F S) (xs : list A) (s : S) : py F S :=
  match xs with
  | [] => ret s
  | x :: rest => s' <- body s x ;; fold_py body rest s'
  end.

(** The builtin [max] of a list of lengths: [ValueError] on an empty list. *)
Definition max_ {F} (xs : list nat) : py F nat :=
  match xs with
  | [] => raise ValueError "max() arg is an empty sequence"
  | x :: rest => ret (fold_left Nat.max rest x)
  end.

(** The process exit status: 0 when the script ends or calls [sys.exit()]
    with no argument, the low byte of an integer argument, 1 after an
    uncaught exception. *)
Definition exit_status {A} (o : outcome A) : Z :=
  match o with
  | Return _ => 0
  | SystemExit None => 0
  | SystemExit (Some n) => Z.land n 255
  | Raise _ => 1
  end.

(** [print(a, b, ...)]: the arguments' texts separated by one space. *)
Definition print {F} (args : list string) : py F unit :=
  emit (EvPrint (String.concat " " args)).

Definition str_nat (n : nat) : string := NilZero.string_of_uint (Nat.to_uint n).

(** ** numpy, as far as the client uses it *)

(** What [array_from_list] needs of an ndarray: its [shape] tuple and
    [np.pad(arr, (before, after))] (constant mode, zeros), which raises
    [ValueError] on a negative width. *)
Class NdArray (F T : Type) := {
  shape : T -> list nat;
  np_pad : T -> Z -> Z -> py F T
}.

(** A 1-D uint8 array is the list of its bytes. *)
#[export] Instance uint8_1d (F : Type) : NdArray F (list byte) := {
  shape arr := [length arr];
  np_pad arr before after :=
    if (before <? 0)%Z || (after <? 0)%Z
    then raise ValueError "index can't contain negative values"
    else ret (repeat x00 (Z.to_nat before) ++ arr ++ repeat x00 (Z.to_nat after))
}.

Definition shape_eqb (s1 s2 : list nat) : bool :=
  if list_eq_dec Nat.eq_dec s1 s2 then true else false.

(** [arr.shape[0]]. *)
Definition shape0 {F T} `{NdArray F T} (arr : T) : py F nat :=
  match shape arr with
  | [] => raise IndexError "tuple index out of range"
  | n :: _ => ret n
  end.

(** [np.stack(arrays)]: a new leading axis; the arrays must agree in shape. *)
Definition np_stack {F T} `{NdArray F T} (arrays : list T) : py F (list T) :=
  match arrays with
  | [] => raise ValueError "need at least one array to stack"
  | a0 :: _ =>
      if forallb (fun a => shape_eqb (shape a) (shape a0)) arrays
      then ret arrays
      else raise ValueError "all input arrays must have the same shape"
  end.

(** The shape of a stack. *)
Definition stack_shape {F T} `{NdArray F T} (stacked : list T) : list nat :=
  length stacked :: match stacked with [] => [] | a0 :: _ => shape a0 end.

(** ** [array_from_list] (lines 108-117) *)

(** A buffer with zero bytes after it, up to length [m]: what the [np.pad]
    call of line 114 makes of a buffer no longer than [m]. *)
Definition padded (m : nat) (arr : list byte) : list byte :=
  arr ++ repeat x00 (m - length arr).

Definition array_from_list {F T} `{NdArray F T} (arrays : list T) : py F (list T) :=
  lengths <- map_py (fun x => match nth_error arrays x with
                              | Some a => shape0 a
                              | None => raise IndexError "list index out of range"
                              end)
                    (seq 0 (length arrays)) ;;
  max_len <- max_ lengths ;;
  arrays <- map_py (fun arr => n <- shape0 arr ;;
                               np_pad arr 0%Z (Z.of_nat max_len - Z.of_nat n)%Z)
                   arrays ;;
  for_each arrays (fun arr =>
      match arrays with
      | [] => raise IndexError "list index out of range"
      | a0 :: _ => assert_ (shape_eqb (shape arr) (shape a0))
                           "Arrays must have the same shape"
      end) ;;
  np_stack arrays.

(** [np.argmax(row)]: the index of the first largest entry, under the order
    [ltb] of the entries; [ValueError] on an empty row. *)
Fixpoint argmax_from {R} (ltb : R -> R -> bool) (best_i : nat) (best : R)
    (i : nat) (xs : list R) : nat :=
  match xs with
  | [] => best_i
  | x :: rest =>
      if ltb best x then argmax_from ltb i x (S i) rest
      else argmax_from ltb best_i best (S i) rest
  end.

Definition np_argmax {F R} (ltb : R -> R -> bool) (row : list R) : py F nat :=
  match row with
  | [] => raise ValueError "attempt to get an argmax of an empty sequence"
  | x :: rest => ret (argmax_from ltb 0 x 1 rest)
  end.

(** [np.argmax(a, axis=1)] of what [as_numpy] returned: a 2-D array (its
    rows), or [None] when the response has no output of that name. *)
Definition np_argmax_axis1 {F R} (ltb : R -> R -> bool)
    (a : option (list (list R))) : py F (list nat) :=
  match a with
  | None => raise AxisError "axis 1 is out of bounds for array of dimension 0"
  | Some rows => map_py (np_argmax ltb) rows
  end.

(** ** The outside world *)

(** A path of the filesystem names nothing, a directory (the names
    [os.listdir] returns, in its order) or a regular file (its bytes). *)
Inductive node :=
| Absent
| Directory (entries : list string)
| RegularFile (content : list byte).

Record ModelStatistics := mkModelStatistics {
  stat_name : string;
  stat_version : string;
  inference_count : Z
}.

(** The statistics snapshot [get_inference_statistics] returns. *)
Record ModelStatisticsResponse := mkModelStatisticsResponse {
  model_stats : list ModelStatistics
}.

(** [results.as_numpy(name)] of an inference response. *)
Record InferResult (R : Type) := mkInferResult {
  as_numpy : string -> option (list (list R))
}.
Arguments mkInferResult {R}.
Arguments as_numpy {R}.

(** Everything a run depends on and the client does not compute: [F] are
    float tensors (numpy arrays of floats), [R] Python floats. *)
Record World (F R : Type) := mkWorld {
  (* tritonclient.grpc: the exception the client constructor raises, if any;
     the answer to the k-th inference request; the statistics of a model *)
  channel_error : string -> bool -> option exception;
  server_infer : nat -> string -> list (InferInput F) -> list InferRequestedOutput ->
                 exception + InferResult R;
  server_statistics : string -> exception + ModelStatisticsResponse;
  str_statistics : ModelStatisticsResponse -> string;
  (* the filesystem *)
  fs : string -> node;
  (* cv2 and float arithmetic: decode, resize to 299x299 and normalise, [None]
     when the buffer does not decode; the seconds [time.perf_counter] measures *)
  decode_resize_normalize : list byte -> option F;
  perf_counter_elapsed : list byte -> R;
  float_shape : F -> list nat;
  float_pad : F -> nat -> nat -> F;
  float_zero : R;
  float_add : R -> R -> R;
  float_ltb : R -> R -> bool;
  str_float : R -> string;
  str_mean_ms : list R -> string;
  str_array_ms : list R -> string
}.
Arguments channel_error {F R}.
Arguments server_infer {F R}.
Arguments server_statistics {F R}.
Arguments str_statistics {F R}.
Arguments fs {F R}.
Arguments decode_resize_normalize {F R}.
Arguments perf_counter_elapsed {F R}.
Arguments float_shape {F R}.
Arguments float_pad {F R}.
Arguments float_zero {F R}.
Arguments float_add {F R}.
Arguments float_ltb {F R}.
Arguments str_float {F R}.
Arguments str_mean_ms {F R}.
Arguments str_array_ms {F R}.

(** Float tensors as ndarrays, through the world's numpy. *)
Definition float_nd {F R} (w : World F R) : NdArray F F := {|
  shape := float_shape w;
  np_pad arr before after :=
    if (before <? 0)%Z || (after <? 0)%Z
    then raise ValueError "index can't contain negative values"
    else ret (float_pad w arr (Z.to_nat before) (Z.to_nat after))
|}.

(** ** os and os.path *)

(** [os.listdir(path)]; [os.listdir(None)] lists the current directory. *)
Definition os_listdir {F R} (w : World F R) (path : option string) : py F (list string) :=
  emit (EvListdir path) ;;
  let p := match path with None => "." | Some p => p end in
  match fs w p with
  | Directory entries => ret entries
  | RegularFile _ => raise NotADirectoryError p
  | Absent => raise FileNotFoundError p
  end.

(** [os.path.isfile(path)]: [os.stat] refuses [None] with a [TypeError], which
    [isfile] (it catches [OSError] and [ValueError]) lets through. *)
Definition os_path_isfile {F R} (w : World F R) (path : option string) : py F bool :=
  match path with
  | None => raise TypeError
      "stat: path should be string, bytes, os.PathLike or integer, not NoneType"
  | Some p =>
      emit (EvIsfile path) ;;
      ret (match fs w p with RegularFile _ => true | _ => false end)
  end.

Definition ends_with_slash (s : string) : bool :=
  match get (String.length s - 1) s with
  | Some c => Ascii.eqb c "/"
  | None => false
  end.

(** [posixpath.join(a, b)]. *)
Definition posix_join (a b : string) : string :=
  if prefix "/" b then b
  else if (String.length a =? 0)%nat || ends_with_slash a then a ++ b
  else a ++ "/" ++ b.

(** [os.path.join(a, b)] where [a] may be [None]. *)
Definition os_path_join {F} (a : option string) (b : string) : py F (option string) :=
  match a with
  | None => raise TypeError "expected str, bytes or os.PathLike object, not NoneType"
  | Some a => ret (Some (posix_join a b))
  end.

(** ** [parse_args] (lines 32-58) *)

(** The arguments of one invocation, in the order given, as argparse reads
    them off the command line (argparse as in CPython 3.11). An option stands
    for every spelling argparse takes for it ([-m x], [--model_name x],
    [--model_name=x], an abbreviation that fits no other option); an [int]
    option carries what [int] makes of its text, [None] when [int] rejects
    it. Besides the options [parse_args] declares there are: argparse's own
    [-h]/[--help]; an option that needs a value and has none after it; a flag
    with a value attached ([--verbose=1]); an abbreviation that fits several
    options ([--im]); and what argparse does not recognize (a positional
    argument, an unknown option, [--] and what follows it). *)
Inductive arg :=
| Opt_verbose
| Opt_url (v : string)
| Opt_batch_size (v : option Z)
| Opt_n_iter (v : option Z)
| Opt_model_name (v : string)
| Opt_input_name (v : string)
| Opt_output_name (v : string)
| Opt_preprocess
| Opt_statistics
| Opt_img (v : string)
| Opt_img_dir (v : string)
| Opt_help
| Opt_no_value (option : string)
| Opt_extra_value (option value : string)
| Opt_ambiguous (option matches : string)
| Arg_unrecognized (text : string).

Record Namespace := mkNamespace {
  verbose : bool;
  url : string;
  batch_size : Z;
  n_iter : Z;
  model_name : string;
  input_name : string;
  output_name : string;
  preprocess : bool;
  statistics : bool;
  img : option string;
  img_dir : option string
}.

(** The defaults of the [add_argument] calls. *)
Definition defaults : Namespace := {|
  verbose := false;
  url := "localhost:8001";
  batch_size := 1;
  n_iter := -1;
  model_name := "dali_backend";
  input_name := "INPUT";
  output_name := "OUTPUT";
  preprocess := false;
  statistics := false;
  img := None;
  img_dir := None
|}.

(** [parser.error(message)]: usage and message on stderr, exit status 2. *)
Definition parser_error {F A} (message : string) : py F A :=
  emit (EvStderr ("error: " ++ message)) ;; sys_exit (Some 2%Z).

(** What [-h] prints on stdout (its first line; the list of the options
    follows it). *)
Definition help_message : string :=
  "usage: dali_grpc_client.py [-h] [-v] [-u URL] [--batch_size BATCH_SIZE] [--n_iter N_ITER] [-m MODEL_NAME] [-i INPUT_NAME] [-o OUTPUT_NAME] [--preprocess] [--statistics] [--img IMG | --img_dir IMG_DIR]".

(** The help action: [parser.print_help()] and [parser.exit()], status 0. *)
Definition help_exit {F A} : py F A :=
  print [help_message] ;; sys_exit (Some 0%Z).

Definition ambiguous_message (option matches : string) : string :=
  "ambiguous option: " ++ option ++ " could match " ++ matches.

(** One argument taken. [seen_img] and [seen_img_dir] are the members of the
    mutually exclusive group already taken. An argument argparse does not
    recognize changes nothing here; the parser sets it aside. *)
Definition take_action {F} (ns : Namespace) (seen_img seen_img_dir : bool) (a : arg)
    : py F (Namespace * bool * bool) :=
  let '(mkNamespace v u b n m i o p s im d) := ns in
  match a with
  | Opt_verbose => ret (mkNamespace true u b n m i o p s im d, seen_img, seen_img_dir)
  | Opt_url x => ret (mkNamespace v x b n m i o p s im d, seen_img, seen_img_dir)
  | Opt_batch_size (Some x) =>
      ret (mkNamespace v u x n m i o p s im d, seen_img, seen_img_dir)
  | Opt_batch_size None => parser_error "argument --batch_size: invalid int value"
  | Opt_n_iter (Some x) =>
      ret (mkNamespace v u b x m i o p s im d, seen_img, seen_img_dir)
  | Opt_n_iter None => parser_error "argument --n_iter: invalid int value"
  | Opt_model_name x => ret (mkNamespace v u b n x i o p s im d, seen_img, seen_img_dir)
  | Opt_input_name x => ret (mkNamespace v u b n m x o p s im d, seen_img, seen_img_dir)
  | Opt_output_name x => ret (mkNamespace v u b n m i x p s im d, seen_img, seen_img_dir)
  | Opt_preprocess => ret (mkNamespace v u b n m i o true s im d, seen_img, seen_img_dir)
  | Opt_statistics => ret (mkNamespace v u b n m i o p true im d, seen_img, seen_img_dir)
  | Opt_img x =>
      if seen_img_dir
      then parser_error "argument --img: not allowed with argument --img_dir"
      else ret (mkNamespace v u b n m i o p s (Some x) d, true, seen_img_dir)
  | Opt_img_dir x =>
      if seen_img
      then parser_error "argument --img_dir: not allowed with argument --img"
      else ret (mkNamespace v u b n m i o p s im (Some x), seen_img, true)
  | Opt_help => help_exit
  | Opt_no_value option =>
      parser_error ("argument " ++ option ++ ": expected one argument")
  | Opt_extra_value option value =>
      parser_error ("argument " ++ option ++ ": ignored explicit argument '" ++ value ++ "'")
  | Opt_ambiguous option matches => parser_error (ambiguous_message option matches)
  | Arg_unrecognized _ => ret (ns, seen_img, seen_img_dir)
  end.

(** The arguments are taken from left to right; [extras] collects the ones
    argparse does not recognize. *)
Fixpoint consume_args {F} (argv : list arg) (ns : Namespace) (seen_img seen_img_dir : bool)
    (extras : list string) : py F (Namespace * list string) :=
  match argv with
  | [] => ret (ns, extras)
  | a :: rest =>
      st <- take_action ns seen_img seen_img_dir a ;;
      let '(ns', seen_img', seen_img_dir') := st in
      consume_args rest ns' seen_img' seen_img_dir'
                   (match a with
                    | Arg_unrecognized text => extras ++ [text]
                    | _ => extras
                    end)
  end.

(** The first abbreviation of the command line that fits several options. *)
Fixpoint first_ambiguous (argv : list arg) : option (string * string) :=
  match argv with
  | [] => None
  | Opt_ambiguous option matches :: _ => Some (option, matches)
  | _ :: rest => first_ambiguous rest
  end.

(** [parser.parse_known_args()]: argparse first looks at every argument to
    tell options from the rest, and that is where it refuses an ambiguous
    abbreviation, before any option is taken; then it takes the arguments in
    order. *)
Definition parse_known_args {F} (argv : list arg) : py F (Namespace * list string) :=
  match first_ambiguous argv with
  | Some (option, matches) => parser_error (ambiguous_message option matches)
  | None => consume_args argv defaults false false []
  end.

(** [parser.parse_args()]: arguments left unrecognized are a usage error. *)
Definition parse_args {F} (argv : list arg) : py F Namespace :=
  r <- parse_known_args argv ;;
  let '(args, extras) := r in
  match extras with
  | [] => ret args
  | _ :: _ => parser_error ("unrecognized arguments: " ++ String.concat " " extras)
  end.

(** ** [load_image] (lines 61-68) and [load_images] (lines 71-87) *)

(** [open(img_path, "rb")] and [f.read()]; the bytes become a uint8 array. *)
Definition load_image {F R} (w : World F R) (img_path : option string) : py F (list byte) :=
  match img_path with
  | None => raise TypeError "expected str, bytes or os.PathLike object, not NoneType"
  | Some p =>
      emit (EvOpen p) ;;
      match fs w p with
      | RegularFile content => ret content
      | Directory _ => raise IsADirectoryError p
      | Absent => raise FileNotFoundError p
      end
  end.

(** The generator expression of lines 79-80, run to its end over the listing
    it was created with. *)
Fixpoint path_generator {F R} (w : World F R) (dir_path : option string)
    (listing : list string) : py F (list (option string)) :=
  match listing with
  | [] => ret []
  | f :: rest =>
      p <- os_path_join dir_path f ;;
      is_file <- os_path_isfile w p ;;
      if is_file
      then (p' <- os_path_join dir_path f ;;
            ps <- path_generator w dir_path rest ;;
            ret (p' :: ps))
      else path_generator w dir_path rest
  end.

(** A generator expression evaluates the iterable of its first [for] where it
    stands, so [os.listdir(dir_path)] runs at line 79, before line 82 asks
    whether [dir_path] is a file. (tqdm's progress bar is not modelled.) *)
Definition load_images {F R} (w : World F R) (dir_path : option string) (max_images : Z)
    : py F (list (list byte)) :=
  assert_ ((0 <? max_images)%Z || (max_images =? -1)%Z) "" ;;
  listing <- os_listdir w dir_path ;;
  is_file <- os_path_isfile w dir_path ;;
  img_paths <- (if is_file then ret [dir_path] else path_generator w dir_path listing) ;;
  let img_paths :=
    if (0 <? max_images)%Z then firstn (Z.to_nat max_images) img_paths else img_paths in
  map_py (load_image w) img_paths.

(** ** [preprocess_image] (lines 90-105) *)

(** cv2 and the float arithmetic are the world's: [cv2.imdecode] returns
    [None] for a buffer it cannot decode, on which [cv2.resize] raises. *)
Definition preprocess_image {F R} (w : World F R) (encoded_image : list byte)
    : py F (F * R) :=
  match decode_resize_normalize w encoded_image with
  | None => raise cv2_error "(-215:Assertion failed) !ssize.empty() in function 'resize'"
  | Some img => ret (img, perf_counter_elapsed w encoded_image)
  end.

(** ** [utils.batcher] *)

(** [len] consecutive items from position [start], wrapping around at the end
    of the dataset: the cursor is taken modulo the dataset's length. *)
Definition cyclic_window {A} (dataset : list A) (start len : nat) : list A :=
  flat_map (fun j => match nth_error dataset ((start + j) mod length dataset) with
                     | Some x => [x]
                     | None => []
                     end)
           (seq 0 len).

(** Modelled from the spec: [utils.batcher], which the client imports and
    whose file is not among the sources. Section 4.5: "given the full ordered
    sequence of image tensors, a batch size, and an optional maximum
    iteration count, produce a lazy, finite sequence of batches, each of
    exactly batch_size consecutive images (wrapping around to the start of
    the sequence if more batches are requested than available images). If no
    iteration count is given, iterate exactly once over all data split into
    batches"; section 3: "the last batch may be shorter if the image set
    doesn't divide evenly". The iteration count is not given when it is
    negative ([--n_iter] defaults to -1). The spec leaves open a batch size
    below 1, and cycling over an empty dataset: no batch is produced there. *)
Definition batcher {A} (dataset : list A) (batch_size n_iterations : Z) : list (list A) :=
  let B := Z.to_nat batch_size in
  let N := length dataset in
  if (B =? 0)%nat then []
  else if (n_iterations <? 0)%Z
  then map (fun i => firstn B (skipn (i * B) dataset)) (seq 0 ((N + B - 1) / B))
  else if (N =? 0)%nat then []
  else map (fun i => cyclic_window dataset (i * B) B) (seq 0 (Z.to_nat n_iterations)).

(** ** [generate_io] (lines 128-133) and the client's calls *)

Definition generate_io {F} (input_name output_name : string) (input_shape : list nat)
    (input_dtype : string) : list (InferInput F) * list InferRequestedOutput :=
  let inputs := [] in
  let outputs := [] in
  let inputs := inputs ++ [mkInferInput input_name input_shape input_dtype None] in
  let outputs := outputs ++ [mkInferRequestedOutput output_name] in
  (inputs, outputs).

(** The triton datatype of a numpy array's dtype. *)
Definition np_to_triton_dtype {F} (data : batch_data F) : string :=
  match data with UINT8_data _ => "UINT8" | FP32_data _ => "FP32" end.

Definition batch_shape {F R} (w : World F R) (data : batch_data F) : list nat :=
  match data with
  | UINT8_data rows => stack_shape (F := F) rows
  | FP32_data samples => stack_shape (H := float_nd w) samples
  end.

(** [inputs[0].set_data_from_numpy(batch)]: the array must have the declared
    datatype and shape. *)
Definition set_data_from_numpy {F R} (w : World F R) (inputs : list (InferInput F))
    (data : batch_data F) : py F (list (InferInput F)) :=
  match inputs with
  | [] => raise IndexError "list index out of range"
  | i0 :: rest =>
      if negb (String.eqb (in_datatype i0) (np_to_triton_dtype data))
      then raise InferenceServerException "got unexpected datatype from numpy array"
      else if negb (shape_eqb (in_shape i0) (batch_shape w data))
      then raise InferenceServerException "got unexpected numpy array shape"
      else ret (mkInferInput (in_name i0) (in_shape i0) (in_datatype i0) (Some data) :: rest)
  end.

(** [tritonclient.grpc.InferenceServerClient(url=..., verbose=...)]. *)
Definition InferenceServerClient {F R} (w : World F R) (url : string) (verbose : bool)
    : py F unit :=
  emit (EvConnect url verbose) ;;
  match channel_error w url verbose with
  | Some e => ([], Raise e)
  | None => ret tt
  end.

(** [triton_client.infer(model_name=..., inputs=..., outputs=...)], the
    [k]-th request of the run. *)
Definition triton_infer {F R} (w : World F R) (k : nat) (model_name : string)
    (inputs : list (InferInput F)) (outputs : list InferRequestedOutput)
    : py F (InferResult R) :=
  emit (EvInfer model_name inputs outputs) ;;
  match server_infer w k model_name inputs outputs with
  | inl e => ([], Raise e)
  | inr r => ret r
  end.

(** [triton_client.get_inference_statistics(model_name=...)]. *)
Definition get_inference_statistics {F R} (w : World F R) (model_name : string)
    : py F ModelStatisticsResponse :=
  emit (EvStatistics model_name) ;;
  match server_statistics w model_name with
  | inl e => ([], Raise e)
  | inr s => ret s
  end.

(** [output0_data[i, j]]. *)
Definition index2 {F R} (a : option (list (list R))) (i j : nat) : py F R :=
  match a with
  | None => raise TypeError "'NoneType' object is not subscriptable"
  | Some rows =>
      match nth_error rows i with
      | None => raise IndexError "index is out of bounds for axis 0"
      | Some row =>
          match nth_error row j with
          | None => raise IndexError "index is out of bounds for axis 1"
          | Some x => ret x
          end
      end
  end.

(** [enumerate(xs)]. *)
Definition enumerate {A} (xs : list A) : list (nat * A) := combine (seq 0 (length xs)) xs.

(** ** [main] (lines 136-198) *)

(** The body of the inference loop, lines 161-187, for the [k]-th batch; it
    carries [latencies], the list the loop appends to. *)
Definition infer_batch {F R} (w : World F R) (FLAGS : Namespace) (model_name : string)
    (latencies : list R) (kb : nat * list (list byte)) : py F (list R) :=
  let '(k, batch) := kb in
  st <- (if preprocess FLAGS
         then
           let preprocessed_samples := [] in
           let latency := float_zero w in
           pl <- fold_py (fun pl img =>
                    let '(preprocessed_samples, latency) := pl in
                    r <- preprocess_image w img ;;
                    let '(prep, lat) := r in
                    ret (preprocessed_samples ++ [prep], float_add w latency lat))
                  batch (preprocessed_samples, latency) ;;
           let '(preprocessed_samples, latency) := pl in
           stacked <- array_from_list (H := float_nd w) preprocessed_samples ;;
           ret (FP32_data stacked, latencies ++ [latency])
         else ret (UINT8_data batch, latencies)) ;;
  let '(batch, latencies) := st in
  let '(inputs, outputs) :=
    generate_io (input_name FLAGS) (output_name FLAGS) (batch_shape w batch)
                (if negb (preprocess FLAGS) then "UINT8" else "FP32") in
  inputs <- set_data_from_numpy w inputs batch ;;
  results <- triton_infer w k model_name inputs outputs ;;
  let output0_data := as_numpy results (output_name FLAGS) in
  maxs <- np_argmax_axis1 (float_ltb w) output0_data ;;
  (if statistics FLAGS
   then for_each (seq 0 (length maxs)) (fun i =>
          let m := nth i maxs 0 in
          x <- index2 output0_data i m ;;
          print ["Sample "; str_nat i; " - label: "; str_nat m; " ~ "; str_float w x])
   else ret tt) ;;
  ret latencies.

(** Lines 189-198: the statistics check and the closing report. *)
Definition report {F R} (w : World F R) (FLAGS : Namespace) (latencies : list R)
    : py F unit :=
  statistics' <- get_inference_statistics w "dali" ;;
  if negb (length (model_stats statistics') =? 1)%nat
  then print ["FAILED: Inference Statistics"] ;; sys_exit (Some 1%Z)
  else
    (if statistics FLAGS then print [str_statistics w statistics'] else ret tt) ;;
    (if preprocess FLAGS
     then print ["Latencies [ms]: "; str_mean_ms w latencies; str_array_ms w latencies]
     else ret tt) ;;
    print ["PASS: infer"].

(** The progress bars tqdm draws on stderr are not modelled; tqdm hands the
    batches on as the batcher yields them. *)
Definition main {F R} (w : World F R) (argv : list arg) : py F unit :=
  FLAGS <- parse_args argv ;;
  triton_client <-
    try_except (InferenceServerClient w (url FLAGS) (verbose FLAGS))
               (fun e => print [("channel creation failed: " ++ str e)%string] ;;
                         sys_exit None) ;;
  let model_name' := model_name FLAGS in
  print ["Loading images"] ;;
  image_data <- load_images w (match img_dir FLAGS with
                               | Some d => Some d
                               | None => img FLAGS
                               end) 15 ;;
  image_data <- array_from_list image_data ;;
  print ["Images loaded"] ;;
  let latencies := [] in
  latencies <- fold_py (infer_batch w FLAGS model_name')
                       (enumerate (batcher image_data (batch_size FLAGS) (n_iter FLAGS)))
                       latencies ;;
  report w FLAGS latencies.

(** Which image options an invocation gives, and whether it asks for the
    help. *)
Definition gives_img (argv : list arg) : bool :=
  existsb (fun a => match a with Opt_img _ => true | _ => false end) argv.

Definition gives_img_dir (argv : list arg) : bool :=
  existsb (fun a => match a with Opt_img_dir _ => true | _ => false end) argv.

Definition gives_help (argv : list arg) : bool :=
  existsb (fun a => match a with Opt_help => true | _ => false end) argv.

(** The argument is an option [parse_args] declares, with a value it takes. *)
Definition accepted (a : arg) : bool :=
  match a with
  | Opt_batch_size None | Opt_n_iter None
  | Opt_help | Opt_no_value _ | Opt_extra_value _ _ | Opt_ambiguous _ _
  | Arg_unrecognized _ => false
  | _ => true
  end.

(** Every argument of the invocation is one. *)
Definition well_formed (argv : list arg) : bool := forallb accepted argv.

(** The arguments argparse sets aside as unrecognized. *)
Definition unrecognized (argv : list arg) : list string :=
  flat_map (fun a => match a with Arg_unrecognized text => [text] | _ => [] end) argv.

(** ** Reading a trace *)

(** [needle] occurs in [hay]. *)
Fixpoint contains (needle hay : string) : bool :=
  if prefix needle hay then true
  else match hay with
       | EmptyString => false
       | String _ rest => contains needle rest
       end.

Definition is_network {F} (e : event F) : bool :=
  match e with
  | EvConnect _ _ | EvInfer _ _ _ | EvStatistics _ => true
  | _ => false
  end.

Definition is_filesystem {F} (e : event F) : bool :=
  match e with
  | EvListdir _ | EvIsfile _ | EvOpen _ => true
  | _ => false
  end.

Definition is_open {F} (e : event F) : bool :=
  match e with EvOpen _ => true | _ => false end.

Definition is_statistics {F} (e : event F) : bool :=
  match e with EvStatistics _ => true | _ => false end.

(** No event of the computation satisfies [P]. *)
Definition silent {F A} (P : event F -> bool) (m : py F A) : Prop :=
  Forall (fun e => P e = false) (trace m).

(** The files a run read. *)
Definition images_read {F} (t : list (event F)) : nat := length (filter is_open t).

(** ** Reading the filesystem *)

(** The path names a regular file; the bytes of the file it names. *)
Definition is_regular {F R} (w : World F R) (p : string) : bool :=
  match fs w p with RegularFile _ => true | _ => false end.

Definition file_content {F R} (w : World F R) (p : string) : list byte :=
  match fs w p with RegularFile content => content | _ => [] end.

(** The paths [load_images] makes of a directory's listing: the regular
    files among its entries, in the listing's order. *)
Definition files_of {F R} (w : World F R) (d : string) (entries : list string)
    : list string :=
  filter (is_regular w) (map (posix_join d) entries).

(** ** A concrete world, for running the client *)

(** A directory [images] holding two image files of different sizes and a
    subdirectory; the current directory holds the script. *)
Definition demo_fs (p : string) : node :=
  if (p =? "images")%string then Directory ["a.jpg"; "sub"; "b.jpg"]
  else if (p =? "images/a.jpg")%string then RegularFile [x01; x02; x03]
  else if (p =? "images/b.jpg")%string then RegularFile [xff]
  else if (p =? "images/sub")%string then Directory []
  else if (p =? ".")%string then Directory ["dali_grpc_client.py"]
  else if (p =? "./dali_grpc_client.py")%string then RegularFile [x23]
  else Absent.

(** The server's answer: three scores per sample, under the name OUTPUT. *)
Definition demo_infer (k : nat) (model : string) (inputs : list (InferInput unit))
    (outputs : list InferRequestedOutput) : exception + InferResult Z :=
  let n := match inputs with
           | i0 :: _ => hd 0 (in_shape i0)
           | [] => 0
           end in
  inr (mkInferResult (fun name =>
         if (name =? "OUTPUT")%string then Some (repeat [1; 5; 2]%Z n) else None)).

(** A world whose server is reachable or not, and whose statistics snapshot
    lists [n_models] models whatever the name asked for. *)
Definition demo_world (reachable : bool) (n_models : nat) : World unit Z := {|
  channel_error u v :=
    if reachable then None
    else Some (Exc InferenceServerException "failed to connect to all addresses");
  server_infer := demo_infer;
  server_statistics name :=
    inr (mkModelStatisticsResponse (repeat (mkModelStatistics name "1" 1) n_models));
  str_statistics s := "model_stats";
  fs := demo_fs;
  decode_resize_normalize buf := None;
  perf_counter_elapsed buf := 0%Z;
  float_shape t := [299; 299; 3];
  float_pad t before after := t;
  float_zero := 0%Z;
  float_add := Z.add;
  float_ltb := Z.ltb;
  str_float x := "score";
  str_mean_ms l := "mean";
  str_array_ms l := "array"
|}.

(** A directory [many] whose listing is a subdirectory followed by sixteen
    image files, each holding one byte that tells it from the others. *)
Definition many_files : list (string * list byte) :=
  [("f01", [x01]); ("f02", [x02]); ("f03", [x03]); ("f04", [x04]);
   ("f05", [x05]); ("f06", [x06]); ("f07", [x07]); ("f08", [x08]);
   ("f09", [x09]); ("f10", [x0a]); ("f11", [x0b]); ("f12", [x0c]);
   ("f13", [x0d]); ("f14", [x0e]); ("f15", [x0f]); ("f16", [x10])].

Definition many_entries : list string := "sub" :: map fst many_files.

Definition many_fs (p : string) : node :=
  if (p =? "many")%string then Directory many_entries
  else if (p =? "many/sub")%string then Directory []
  else match find (fun f => (p =? posix_join "many" (fst f))%string) many_files with
       | Some f => RegularFile (snd f)
       | None => Absent
       end.

(** A world like [demo_world] over another filesystem, and with a codec
    that decodes a buffer or not; a decoded image is measured to take 7. *)
Definition demo_world_with (files : string -> node) (decodes : list byte -> bool)
    (reachable : bool) (n_models : nat) : World unit Z := {|
  channel_error u v :=
    if reachable then None
    else Some (Exc InferenceServerException "failed to connect to all addresses");
  server_infer := demo_infer;
  server_statistics name :=
    inr (mkModelStatisticsResponse (repeat (mkModelStatistics name "1" 1) n_models));
  str_statistics s := "model_stats";
  fs := files;
  decode_resize_normalize buf := if decodes buf then Some tt else None;
  perf_counter_elapsed buf := 7%Z;
  float_shape t := [299; 299; 3];
  float_pad t before after := t;
  float_zero := 0%Z;
  float_add := Z.add;
  float_ltb := Z.ltb;
  str_float x := "score";
  str_mean_ms l := "mean";
  str_array_ms l := "array"
|}.

Definition many_world : World unit Z := demo_world_with many_fs (fun _ => false) true 1.

Definition cv2_world : World unit Z := demo_world_with demo_fs (fun _ => true) true 1.

(** ** Reading a namespace and a request *)

(** Two options write the same attribute of the namespace. *)
Definition same_dest (a b : arg) : bool :=
  match a, b with
  | Opt_verbose, Opt_verbose
  | Opt_url _, Opt_url _
  | Opt_batch_size _, Opt_batch_size _
  | Opt_n_iter _, Opt_n_iter _
  | Opt_model_name _, Opt_model_name _
  | Opt_input_name _, Opt_input_name _
  | Opt_output_name _, Opt_output_name _
  | Opt_preprocess, Opt_preprocess
  | Opt_statistics, Opt_statistics
  | Opt_img _, Opt_img _
  | Opt_img_dir _, Opt_img_dir _ => true
  | _, _ => false
  end.

(** The namespace holds what the option [a] stores (nothing holds for an
    argument that is no declared option: it stores nothing). *)
Definition holds (a : arg) (ns : Namespace) : Prop :=
  match a with
  | Opt_verbose => verbose ns = true
  | Opt_url v => url ns = v
  | Opt_batch_size v => Some (batch_size ns) = v
  | Opt_n_iter v => Some (n_iter ns) = v
  | Opt_model_name v => model_name ns = v
  | Opt_input_name v => input_name ns = v
  | Opt_output_name v => output_name ns = v
  | Opt_preprocess => preprocess ns = true
  | Opt_statistics => statistics ns = true
  | Opt_img v => img ns = Some v
  | Opt_img_dir v => img_dir ns = Some v
  | Opt_help | Opt_no_value _ | Opt_extra_value _ _ | Opt_ambiguous _ _
  | Arg_unrecognized _ => False
  end.

(** Two namespaces agree on the attribute the option [a] writes. *)
Definition same_attribute (a : arg) (ns ns' : Namespace) : Prop :=
  match a with
  | Opt_verbose => verbose ns = verbose ns'
  | Opt_url _ => url ns = url ns'
  | Opt_batch_size _ => batch_size ns = batch_size ns'
  | Opt_n_iter _ => n_iter ns = n_iter ns'
  | Opt_model_name _ => model_name ns = model_name ns'
  | Opt_input_name _ => input_name ns = input_name ns'
  | Opt_output_name _ => output_name ns = output_name ns'
  | Opt_preprocess => preprocess ns = preprocess ns'
  | Opt_statistics => statistics ns = statistics ns'
  | Opt_img _ => img ns = img ns'
  | Opt_img_dir _ => img_dir ns = img_dir ns'
  | Opt_help | Opt_no_value _ | Opt_extra_value _ _ | Opt_ambiguous _ _
  | Arg_unrecognized _ => True
  end.

Definition is_some {A} (o : option A) : bool :=
  match o with Some _ => true | None => false end.

(** The cap [load_images] accepts: positive, or -1 for none (line 75). *)
Definition cap_ok (max_images : Z) : bool :=
  (0 <? max_images)%Z || (max_images =? -1)%Z.

Definition is_infer {F} (e : event F) : bool :=
  match e with EvInfer _ _ _ => true | _ => false end.

(** A request to the server: inference or statistics. *)
Definition is_request {F} (e : event F) : bool :=
  match e with EvInfer _ _ _ | EvStatistics _ => true | _ => false end.


(** The request that carries a batch of raw rows: the rows as they are,
    declared UINT8 under the shape (rows, row length). *)
Definition raw_request {F} (FLAGS : Namespace) (model : string) (batch : list (list byte))
    : event F :=
  EvInfer model
          [mkInferInput (input_name FLAGS) (stack_shape (F := F) batch) "UINT8"
                        (Some (UINT8_data batch))]
          [mkInferRequestedOutput (output_name FLAGS)].

Definition is_print {F} (e : event F) : bool :=
  match e with EvPrint _ => true | _ => false end.

(** The label of a sample: the index of the first largest score of its row. *)
Definition label {R} (ltb : R -> R -> bool) (row : list R) : nat :=
  match row with
  | [] => 0
  | x :: rest => argmax_from ltb 0 x 1 rest
  end.

(** The line of line 187 for sample [i] with the scores [row]: its label and
    the score under that label. *)
Definition sample_line {F R} (w : World F R) (i : nat) (row : list R) : list (event F) :=
  match nth_error row (label (float_ltb w) row) with
  | Some x =>
      [EvPrint (String.concat " " ["Sample "; str_nat i; " - label: ";
                                   str_nat (label (float_ltb w) row); " ~ ";
                                   str_float w x])]
  | None => []
  end.

Definition sample_lines {F R} (w : World F R) (rows : list (list R)) : list (event F) :=
  flat_map (fun ir => sample_line w (fst ir) (snd ir)) (enumerate rows).

(** The computation calls [sys.exit] with no code but one that satisfies [Q]. *)
Definition exits_only {F A} (Q : option Z -> Prop) (m : py F A) : Prop :=
  forall code, result m = SystemExit code -> Q code.

(** * Properties *)

(** ** The monad *)

Arguments bind : simpl never.
Arguments ret : simpl never.
Arguments raise : simpl never.
Arguments emit : simpl never.

Lemma bind_ret_l {F A B} (a : A) (f : A -> py F B) : bind (ret a) f = f a.
Proof. unfold bind, ret. destruct (f a); reflexivity. Qed.

Lemma map_py_pure {F A B} (f : A -> py F B) (g : A -> B) (xs : list A) :
  (forall x, In x xs -> f x = ret (g x)) ->
  map_py f xs = ret (map g xs).
Proof.
  induction xs as [|x xs IH]; intros Hf; simpl.
  - reflexivity.
  - rewrite (Hf x (or_introl eq_refl)), bind_ret_l.
    rewrite IH by (intros y Hy; apply Hf; now right).
    now rewrite bind_ret_l.
Qed.

Lemma for_each_pure {F A} (body : A -> py F unit) (xs : list A) :
  (forall x, In x xs -> body x = ret tt) ->
  for_each xs body = ret tt.
Proof.
  induction xs as [|x xs IH]; intros Hb; simpl.
  - reflexivity.
  - rewrite (Hb x (or_introl eq_refl)), bind_ret_l.
    apply IH. intros y Hy. apply Hb. now right.
Qed.

(** ** [array_from_list] on 1-D byte buffers *)

Section ArrayFromList.
Context {F : Type}.

Lemma fold_left_max (xs : list nat) (x : nat) :
  fold_left Nat.max xs x = Nat.max x (list_max xs).
Proof.
  revert x. induction xs as [|y ys IH]; intros x; simpl.
  - lia.
  - rewrite IH. lia.
Qed.

Lemma max_list_max (x : nat) (xs : list nat) :
  max_ (F := F) (x :: xs) = ret (list_max (x :: xs)).
Proof. unfold max_. now rewrite fold_left_max. Qed.

Lemma lengths_by_index (pre suf : list (list byte)) :
  map_py (F := F)
         (fun x => match nth_error (pre ++ suf) x with
                   | Some a => shape0 a
                   | None => raise IndexError "list index out of range"
                   end)
         (seq (length pre) (length suf))
  = ret (map (@length byte) suf).
Proof.
  revert pre. induction suf as [|a suf IH]; intros pre; simpl.
  - reflexivity.
  - rewrite nth_error_app2, Nat.sub_diag by lia. simpl.
    unfold shape0 at 1. simpl. rewrite bind_ret_l.
    specialize (IH (pre ++ [a])).
    rewrite <- app_assoc, length_app, Nat.add_comm in IH. simpl in IH.
    rewrite IH. now rewrite bind_ret_l.
Qed.

Lemma lengths_of_all (arrays : list (list byte)) :
  map_py (F := F)
         (fun x => match nth_error arrays x with
                   | Some a => shape0 a
                   | None => raise IndexError "list index out of range"
                   end)
         (seq 0 (length arrays))
  = ret (map (@length byte) arrays).
Proof. exact (lengths_by_index [] arrays). Qed.

Lemma length_le_list_max (arrays : list (list byte)) (arr : list byte) :
  In arr arrays -> length arr <= list_max (map (@length byte) arrays).
Proof.
  intros Hin.
  assert (H := proj1 (list_max_le (map (@length byte) arrays) _) (Nat.le_refl _)).
  rewrite Forall_forall in H. apply H. now apply in_map.
Qed.

Lemma pad_to_max (m : nat) (arr : list byte) :
  length arr <= m ->
  (n <- shape0 (F := F) arr ;; np_pad arr 0%Z (Z.of_nat m - Z.of_nat n)%Z)
  = ret (padded m arr).
Proof.
  intros Hle. unfold shape0. simpl. rewrite bind_ret_l.
  destruct (Z.ltb_spec (Z.of_nat m - Z.of_nat (length arr)) 0); [lia|].
  unfold padded. do 3 f_equal. lia.
Qed.

Lemma padded_length (m : nat) (arr : list byte) :
  length arr <= m -> length (padded m arr) = m.
Proof. intros Hle. unfold padded. rewrite length_app, repeat_length. lia. Qed.

Lemma shape_eqb_refl (s : list nat) : shape_eqb s s = true.
Proof. unfold shape_eqb. now destruct (list_eq_dec Nat.eq_dec s s). Qed.

(** What the function computes on a non-empty list. *)
Lemma array_from_list_eq (a : list byte) (rest : list (list byte)) :
  array_from_list (F := F) (a :: rest)
  = ret (map (padded (list_max (map (@length byte) (a :: rest)))) (a :: rest)).
Proof.
  set (arrays := a :: rest). set (m := list_max (map (@length byte) arrays)).
  assert (Hle : forall arr, In arr arrays -> length arr <= m)
    by (intros; now apply length_le_list_max).
  unfold array_from_list.
  rewrite lengths_of_all, bind_ret_l.
  unfold arrays at 1. simpl map at 1. rewrite max_list_max, bind_ret_l.
  fold arrays. fold m.
  rewrite (map_py_pure _ (padded m)), bind_ret_l
    by (intros arr Hin; apply pad_to_max; auto).
  assert (Hshape : forall row, In row (map (padded m) arrays) ->
                     shape (NdArray := uint8_1d F) row = [m]).
  { intros row Hin. apply in_map_iff in Hin as (arr & <- & Hin).
    simpl. now rewrite padded_length by auto. }
  rewrite for_each_pure, bind_ret_l.
  - unfold np_stack. unfold arrays at 1. cbn [map].
    replace (forallb _ _) with true; [reflexivity|].
    symmetry. apply forallb_forall. intros row Hin.
    rewrite (Hshape row Hin), (Hshape (padded m a)) by (left; reflexivity).
    apply shape_eqb_refl.
  - intros row Hin. unfold arrays at 1. cbn [map].
    rewrite (Hshape row Hin), (Hshape (padded m a)) by (left; reflexivity).
    now rewrite shape_eqb_refl.
Qed.

(** C1. For every non-empty list of 1-D byte buffers, [array_from_list]
    returns a 2-D tensor with one row per buffer; its shape is (N, max), every
    row has the maximum input length, starts with the buffer it comes from and
    is zero from there on. A list of one buffer is returned as a one-row
    tensor holding that buffer. *)
Theorem array_from_list_pads_and_stacks (a : list byte) (rest : list (list byte)) :
  let arrays := a :: rest in
  let max_len := list_max (map (@length byte) arrays) in
  (exists tensor,
      array_from_list (F := F) arrays = ret tensor /\
      length tensor = length arrays /\
      stack_shape (F := F) tensor = [length arrays; max_len] /\
      Forall2 (fun arr row =>
                 length row = max_len /\
                 firstn (length arr) row = arr /\
                 skipn (length arr) row = repeat x00 (max_len - length arr))
              arrays tensor) /\
  array_from_list (F := F) [a] = ret [a].
Proof.
  intros arrays max_len. split.
  - exists (map (padded max_len) arrays).
    assert (Hle : forall arr, In arr arrays -> length arr <= max_len)
      by (intros; now apply length_le_list_max).
    repeat split.
    + apply array_from_list_eq.
    + apply length_map.
    + unfold stack_shape. rewrite length_map. unfold arrays at 2. cbn [map].
      simpl shape. rewrite padded_length by (apply Hle; now left). reflexivity.
    + clearbody max_len. clearbody arrays. clear -Hle.
      induction arrays as [|arr l IH]; simpl; constructor.
      * repeat split.
        -- apply padded_length, Hle. now left.
        -- unfold padded. rewrite firstn_app, Nat.sub_diag, firstn_all. simpl.
           apply app_nil_r.
        -- unfold padded. rewrite skipn_app, Nat.sub_diag, skipn_all. reflexivity.
      * apply IH. intros x Hx. apply Hle. now right.
  - rewrite array_from_list_eq. unfold list_max. cbn [map fold_right].
    rewrite Nat.max_0_r. unfold padded. rewrite Nat.sub_diag. cbn [repeat].
    now rewrite app_nil_r.
Qed.

(** C10. Applied to the empty list, [array_from_list] raises [ValueError]
    (the maximum of an empty sequence); on every non-empty list of 1-D arrays
    it returns a tensor; and on no list does it end in the [AssertionError]
    of its equal-shape check. *)
Theorem array_from_list_nonempty_only :
  array_from_list (F := F) (T := list byte) []
    = raise ValueError "max() arg is an empty sequence" /\
  (forall (a : list byte) (rest : list (list byte)),
      exists tensor, array_from_list (F := F) (a :: rest) = ret tensor) /\
  (forall (arrays : list (list byte)) (msg : string),
      result (array_from_list (F := F) arrays) <> Raise (Exc AssertionError msg)).
Proof.
  split; [reflexivity|]. split.
  - intros a rest. eexists. apply array_from_list_eq.
  - intros [|a rest] msg.
    + discriminate.
    + rewrite array_from_list_eq. discriminate.
Qed.

End ArrayFromList.

Example array_from_list_demo :
  array_from_list (F := unit) [[x01; x02; x03]; []; [xff]]
  = ret [[x01; x02; x03]; [x00; x00; x00]; [xff; x00; x00]].
Proof. reflexivity. Qed.

(** ** Which events a computation performs *)

Lemma bind_return {F A B} (t : list (event F)) (a : A) (f : A -> py F B) :
  bind (t, Return a) f = (t ++ trace (f a), result (f a)).
Proof. unfold bind, trace, result. destruct (f a); reflexivity. Qed.

(** Inverting a [bind]. *)
Lemma bind_eq_return {F A B} (m : py F A) (f : A -> py F B) (t : list (event F)) (b : B) :
  bind m f = (t, Return b) ->
  exists t1 a t2, m = (t1, Return a) /\ f a = (t2, Return b) /\ t = t1 ++ t2.
Proof.
  destruct m as [t1 [a|e|c]]; try discriminate.
  rewrite bind_return. destruct (f a) as [t2 o] eqn:E. simpl. intros H.
  inversion H. subst. now exists t1, a, t2.
Qed.

Lemma bind_eq_ret {F A B} (m : py F A) (f : A -> py F B) (b : B) :
  bind m f = ret b -> exists a, m = ret a /\ f a = ret b.
Proof.
  intros H. apply bind_eq_return in H as (t1 & a & t2 & Hm & Hf & Ht).
  symmetry in Ht. apply app_eq_nil in Ht as [-> ->]. now exists a.
Qed.

Lemma result_bind_return {F A B} (m : py F A) (f : A -> py F B) (b : B) :
  result (bind m f) = Return b ->
  exists t1 a, m = (t1, Return a) /\ result (f a) = Return b /\
               bind m f = (t1 ++ trace (f a), result (f a)).
Proof.
  destruct m as [t1 [a|e|c]]; try discriminate.
  rewrite bind_return. simpl. intros H. now exists t1, a.
Qed.

Section Silent.
Context {F : Type}.
Variable P : event F -> bool.

Lemma silent_ret {A} (a : A) : silent P (ret a).
Proof. constructor. Qed.

Lemma silent_raise {A} c msg : silent P (raise (A := A) c msg).
Proof. constructor. Qed.

Lemma silent_nil {A} (o : outcome A) : silent P ([], o).
Proof. constructor. Qed.

Lemma silent_sys_exit {A} c : silent P (sys_exit (A := A) c).
Proof. constructor. Qed.

Lemma silent_emit e : P e = false -> silent P (emit e).
Proof. intros He. repeat constructor. exact He. Qed.

Lemma silent_bind {A B} (m : py F A) (f : A -> py F B) :
  silent P m -> (forall a, silent P (f a)) -> silent P (bind m f).
Proof.
  unfold silent. destruct m as [t [a|e|c]]; intros Hm Hf; try exact Hm.
  rewrite bind_return. simpl in *. apply Forall_app. split; [exact Hm | apply Hf].
Qed.

Lemma silent_try_except {A} (body : py F A) handler :
  silent P body -> (forall e, silent P (handler e)) -> silent P (try_except body handler).
Proof.
  unfold silent, try_except. destruct body as [t [a|e|c]]; intros Hm Hh; try exact Hm.
  specialize (Hh e). destruct (handler e) as [t' r]. simpl in *.
  apply Forall_app. now split.
Qed.

Lemma silent_map_py {A B} (f : A -> py F B) xs :
  (forall x, silent P (f x)) -> silent P (map_py f xs).
Proof.
  intros Hf. induction xs as [|x xs IH]; simpl.
  - apply silent_ret.
  - apply silent_bind; [apply Hf|]. intros y.
    apply silent_bind; [apply IH|]. intros ys. apply silent_ret.
Qed.

Lemma silent_for_each {A} (body : A -> py F unit) xs :
  (forall x, silent P (body x)) -> silent P (for_each xs body).
Proof.
  intros Hb. induction xs as [|x xs IH]; simpl.
  - apply silent_ret.
  - apply silent_bind; [apply Hb | intros _; apply IH].
Qed.

Lemma silent_fold_py {A S} (body : S -> A -> py F S) xs s :
  (forall s x, silent P (body s x)) -> silent P (fold_py body xs s).
Proof.
  intros Hb. revert s. induction xs as [|x xs IH]; intros s; simpl.
  - apply silent_ret.
  - apply silent_bind; [apply Hb | intros s'; apply IH].
Qed.

(** The events before a silent P prefix's continuation: an event satisfying
    [P] in the trace of [bind m f] lies in the continuation. *)
Lemma bind_silent_inv {A B} (m : py F A) (f : A -> py F B) (e : event F) :
  silent P m -> P e = true -> In e (trace (bind m f)) ->
  exists t a, m = (t, Return a) /\ In e (trace (f a)).
Proof.
  unfold silent. destruct m as [t [a|x|c]]; intros Hm He Hin.
  - exists t, a. split; [reflexivity|].
    rewrite bind_return in Hin. simpl in *. apply in_app_or in Hin as [Hin|Hin].
    + rewrite Forall_forall in Hm. rewrite (Hm e Hin) in He. discriminate.
    + exact Hin.
  - simpl in *. rewrite Forall_forall in Hm. rewrite (Hm e Hin) in He. discriminate.
  - simpl in *. rewrite Forall_forall in Hm. rewrite (Hm e Hin) in He. discriminate.
Qed.

Lemma filter_silent {A} (m : py F A) : silent P m -> filter P (trace m) = [].
Proof.
  unfold silent. induction 1 as [|e t He _ IH]; simpl; [reflexivity|].
  now rewrite He.
Qed.

Lemma filter_bind_silent_r {A B} (m : py F A) (f : A -> py F B) :
  (forall a, silent P (f a)) -> filter P (trace (bind m f)) = filter P (trace m).
Proof.
  intros Hf. destruct m as [t [a|x|c]]; try reflexivity.
  rewrite bind_return. pose proof (filter_silent _ (Hf a)) as E. simpl in *.
  rewrite filter_app, E. apply app_nil_r.
Qed.

Lemma filter_bind_silent_l {A B} (m : py F A) (f : A -> py F B) :
  silent P m ->
  filter P (trace (bind m f)) = [] \/
  exists a, result m = Return a /\ filter P (trace (bind m f)) = filter P (trace (f a)).
Proof.
  intros Hm. destruct m as [t [a|x|c]].
  - right. exists a. split; [reflexivity|].
    rewrite bind_return. pose proof (filter_silent _ Hm) as E. simpl in *.
    now rewrite filter_app, E.
  - left. exact (filter_silent _ Hm).
  - left. exact (filter_silent _ Hm).
Qed.

End Silent.

Create HintDb silent.
#[local] Hint Resolve silent_ret silent_raise silent_sys_exit silent_nil : silent.

(** Takes a silence goal apart along the structure of the program. *)
Ltac silence :=
  repeat first
    [ apply silent_ret | apply silent_raise | apply silent_sys_exit | apply silent_nil
    | apply silent_emit; solve [auto | reflexivity]
    | apply silent_bind; [ | intros ? ]
    | apply silent_try_except; [ | intros ? ]
    | apply silent_map_py; intros ?
    | apply silent_for_each; intros ?
    | apply silent_fold_py; intros ? ?
    | progress auto with silent
    | match goal with
      | |- silent _ (match ?x with _ => _ end) => destruct x
      end ].

Section SilentClient.
Context {F R : Type}.
Variable P : event F -> bool.
Hypothesis P_connect : forall u v, P (EvConnect u v) = false.
Hypothesis P_listdir : forall p, P (EvListdir p) = false.
Hypothesis P_isfile : forall p, P (EvIsfile p) = false.
Hypothesis P_infer : forall m i o, P (EvInfer m i o) = false.
Hypothesis P_print : forall l, P (EvPrint l) = false.
Hypothesis P_stderr : forall l, P (EvStderr l) = false.

Lemma silent_print args : silent P (print args).
Proof. unfold print. silence. Qed.

Lemma silent_parser_error {A} msg : silent P (parser_error (A := A) msg).
Proof. unfold parser_error. silence. Qed.

Lemma silent_help_exit {A} : silent P (help_exit (A := A)).
Proof. unfold help_exit. apply silent_bind; [apply silent_print | intros; silence]. Qed.

Lemma silent_take_action ns si sd a : silent P (take_action ns si sd a).
Proof.
  unfold take_action. destruct ns.
  destruct a as [| | [?|] | [?|] | | | | | | | | | | | |]; try destruct sd; try destruct si;
    auto using silent_parser_error, silent_help_exit with silent.
Qed.

Lemma silent_consume_args argv ns si sd extras :
  silent P (consume_args argv ns si sd extras).
Proof.
  revert ns si sd extras. induction argv as [|a rest IH]; intros ns si sd extras; simpl.
  - silence.
  - apply silent_bind; [apply silent_take_action|].
    intros [[ns' si'] sd']. apply IH.
Qed.

Lemma silent_parse_args argv : silent P (parse_args argv).
Proof.
  unfold parse_args, parse_known_args. apply silent_bind.
  - destruct (first_ambiguous argv) as [[option matches]|];
      [apply silent_parser_error | apply silent_consume_args].
  - intros [args [|text extras]]; [silence | apply silent_parser_error].
Qed.

Lemma silent_connect (w : World F R) u v handler :
  (forall e, silent P (handler e)) ->
  silent P (try_except (InferenceServerClient w u v) handler).
Proof. intros Hh. unfold InferenceServerClient. silence. Qed.

Lemma silent_shape0 {T} `{NdArray F T} (arr : T) : silent P (shape0 arr).
Proof. unfold shape0. silence. Qed.

Lemma silent_np_stack {T} `{NdArray F T} (arrays : list T) : silent P (np_stack arrays).
Proof. unfold np_stack. silence. Qed.

Lemma silent_array_from_list {T} `{NdArray F T} (arrays : list T) :
  (forall arr before after, silent P (np_pad arr before after)) ->
  silent P (array_from_list arrays).
Proof.
  intros Hpad. unfold array_from_list, max_, assert_.
  silence; auto using silent_shape0, silent_np_stack.
Qed.

Lemma silent_pad_uint8 (arr : list byte) before after :
  silent P (np_pad (NdArray := uint8_1d F) arr before after).
Proof. simpl. silence. Qed.

Lemma silent_pad_float (w : World F R) (arr : F) before after :
  silent P (np_pad (NdArray := float_nd w) arr before after).
Proof. simpl. silence. Qed.

Lemma silent_os_listdir (w : World F R) p : silent P (os_listdir w p).
Proof. unfold os_listdir. silence. Qed.

Lemma silent_os_path_isfile (w : World F R) p : silent P (os_path_isfile w p).
Proof. unfold os_path_isfile. silence. Qed.

Lemma silent_os_path_join a b : silent P (os_path_join (F := F) a b).
Proof. unfold os_path_join. silence. Qed.

Lemma silent_path_generator (w : World F R) d listing :
  silent P (path_generator w d listing).
Proof.
  induction listing as [|f rest IH]; simpl.
  - silence.
  - apply silent_bind; [apply silent_os_path_join|]. intros p.
    apply silent_bind; [apply silent_os_path_isfile|]. intros [|]; [|exact IH].
    apply silent_bind; [apply silent_os_path_join|]. intros p'.
    apply silent_bind; [exact IH|]. intros ps. silence.
Qed.

Lemma silent_preprocess_image (w : World F R) img : silent P (preprocess_image w img).
Proof. unfold preprocess_image. silence. Qed.

Lemma silent_set_data (w : World F R) inputs data :
  silent P (set_data_from_numpy w inputs data).
Proof. unfold set_data_from_numpy. silence. Qed.

Lemma silent_triton_infer (w : World F R) k m i o : silent P (triton_infer w k m i o).
Proof. unfold triton_infer. silence. Qed.

Lemma silent_np_argmax_axis1 (ltb : R -> R -> bool) a :
  silent P (np_argmax_axis1 (F := F) ltb a).
Proof. unfold np_argmax_axis1, np_argmax. silence. Qed.

Lemma silent_index2 (a : option (list (list R))) i j : silent P (index2 (F := F) a i j).
Proof. unfold index2. silence. Qed.

Lemma silent_infer_batch (w : World F R) FLAGS m latencies kb :
  silent P (infer_batch w FLAGS m latencies kb).
Proof.
  unfold infer_batch. destruct kb as [k batch].
  apply silent_bind.
  - destruct (preprocess FLAGS); [|silence].
    apply silent_bind.
    + apply silent_fold_py. intros [samples latency] img.
      apply silent_bind; [apply silent_preprocess_image|]. intros [prep lat]. silence.
    + intros [samples latency].
      apply silent_bind; [|intros; silence].
      apply silent_array_from_list. intros. apply silent_pad_float.
  - intros [batch' latencies'].
    destruct (generate_io _ _ _ _) as [inputs outputs].
    apply silent_bind; [apply silent_set_data|]. intros inputs'.
    apply silent_bind; [apply silent_triton_infer|]. intros results.
    apply silent_bind; [apply silent_np_argmax_axis1|]. intros maxs.
    apply silent_bind; [|intros; silence].
    destruct (statistics FLAGS); [|silence].
    apply silent_for_each. intros i.
    apply silent_bind; [apply silent_index2|]. intros x. apply silent_print.
Qed.

Lemma silent_load_image (w : World F R) p :
  (forall q, P (EvOpen q) = false) -> silent P (load_image w p).
Proof. intros P_open. unfold load_image. silence. Qed.

Lemma silent_load_images (w : World F R) d n :
  (forall q, P (EvOpen q) = false) -> silent P (load_images w d n).
Proof.
  intros P_open. unfold load_images, assert_.
  apply silent_bind; [silence|]. intros _.
  apply silent_bind; [apply silent_os_listdir|]. intros listing.
  apply silent_bind; [apply silent_os_path_isfile|]. intros is_file.
  apply silent_bind.
  - destruct is_file; [silence | apply silent_path_generator].
  - intros paths. apply silent_map_py. intros p. now apply silent_load_image.
Qed.

Lemma silent_report (w : World F R) FLAGS latencies :
  (forall m, P (EvStatistics m) = false) -> silent P (report w FLAGS latencies).
Proof.
  intros P_stats. unfold report, get_inference_statistics.
  silence; apply silent_print.
Qed.

End SilentClient.

(** ** Configuration resolution *)

Section ParseArgs.
Context {F R : Type}.

(** How a usage error ends: one line on stderr, [sys.exit(2)]. *)
Lemma parser_error_eq {A} (message : string) :
  parser_error (F := F) (A := A) message
  = ([EvStderr ("error: " ++ message)], SystemExit (Some 2%Z)).
Proof. reflexivity. Qed.

Lemma bind_parser_error {A B} (message : string) (f : A -> py F B) :
  bind (parser_error message) f = parser_error message.
Proof. reflexivity. Qed.

(** How the help action ends: the help on stdout, [sys.exit(0)]. *)
Lemma help_exit_eq {A} :
  help_exit (F := F) (A := A) = ([EvPrint help_message], SystemExit (Some 0%Z)).
Proof. reflexivity. Qed.

Lemma bind_help_exit {A B} (f : A -> py F B) : bind help_exit f = help_exit.
Proof. reflexivity. Qed.

(** One argument is stored, refused with a usage error, or is [-h]. *)
Lemma take_action_cases (ns : Namespace) (si sd : bool) (a : arg) :
  (exists ns' si' sd', take_action (F := F) ns si sd a = ret (ns', si', sd')) \/
  (exists message, take_action (F := F) ns si sd a = parser_error message) \/
  (a = Opt_help /\ take_action (F := F) ns si sd a = help_exit).
Proof.
  destruct ns. destruct a as [| | [?|] | [?|] | | | | | | | | | | | |]; cbn [take_action];
    try (left; do 3 eexists; reflexivity);
    try (right; left; eexists; reflexivity);
    try (right; right; split; reflexivity).
  - destruct sd; [right; left; eexists; reflexivity | left; do 3 eexists; reflexivity].
  - destruct si; [right; left; eexists; reflexivity | left; do 3 eexists; reflexivity].
Qed.

(** Taking the arguments ends in a namespace, in a usage error, or in the
    help; in the help only if [-h] is among them. *)
Lemma consume_args_cases (argv : list arg) (ns : Namespace) (si sd : bool)
    (extras : list string) :
  (exists r, consume_args (F := F) argv ns si sd extras = ret r) \/
  (exists message, consume_args (F := F) argv ns si sd extras = parser_error message) \/
  (gives_help argv = true /\ consume_args (F := F) argv ns si sd extras = help_exit).
Proof.
  revert ns si sd extras. induction argv as [|a rest IH]; intros ns si sd extras.
  - left. now eexists.
  - cbn [consume_args].
    destruct (take_action_cases ns si sd a)
      as [(ns' & si' & sd' & ->)|[(message & ->)|(-> & ->)]].
    + rewrite bind_ret_l.
      destruct (IH ns' si' sd' (match a with
                                | Arg_unrecognized text => extras ++ [text]
                                | _ => extras
                                end)) as [H|[H|[Hh H]]].
      * left. exact H.
      * right. left. exact H.
      * right. right. split; [|exact H].
        unfold gives_help in *. cbn [existsb]. rewrite Hh. apply orb_true_r.
    + right. left. exists message. reflexivity.
    + right. right. split; reflexivity.
Qed.

(** Once one member of the group has been taken and the other is still to
    come (or both are to come), no namespace results. *)
Lemma consume_args_conflict (argv : list arg) (ns : Namespace) (seen_img seen_img_dir : bool)
    (extras : list string) (r : Namespace * list string) :
  seen_img || gives_img argv = true ->
  seen_img_dir || gives_img_dir argv = true ->
  seen_img && seen_img_dir = false ->
  consume_args (F := F) argv ns seen_img seen_img_dir extras <> ret r.
Proof.
  revert ns seen_img seen_img_dir extras.
  induction argv as [|a rest IH]; intros ns si sd extras Hi Hd Hnot.
  - cbn in *. rewrite orb_false_r in Hi, Hd. subst. discriminate.
  - cbn [consume_args].
    destruct (take_action_cases ns si sd a)
      as [(ns' & si' & sd' & Ha)|[(message & ->)|(-> & ->)]];
      [|discriminate|discriminate].
    rewrite Ha, bind_ret_l. destruct ns.
    destruct a as [| | [?|] | [?|] | | | | | | | | | | | |]; cbn [take_action] in Ha;
      try discriminate Ha;
      try (inversion Ha; subst ns' si' sd'; apply IH; assumption).
    + destruct sd; [discriminate Ha|]. inversion Ha. subst ns' si' sd'.
      apply IH; auto.
    + destruct si; [discriminate Ha|]. inversion Ha. subst ns' si' sd'.
      apply IH; auto.
Qed.

(** [parse_args] ends in a namespace, in a usage error, or in the help; in
    the help only if [-h] is among the arguments. *)
Lemma parse_args_cases (argv : list arg) :
  (exists FLAGS, parse_args (F := F) argv = ret FLAGS) \/
  (exists message, parse_args (F := F) argv = parser_error message) \/
  (gives_help argv = true /\ parse_args (F := F) argv = help_exit).
Proof.
  unfold parse_args, parse_known_args.
  destruct (first_ambiguous argv) as [[option matches]|].
  - right. left. eexists. reflexivity.
  - destruct (consume_args_cases argv defaults false false [])
      as [[[args extras] ->]|[[message ->]|[Hh ->]]].
    + rewrite bind_ret_l. destruct extras as [|text extras].
      * left. now exists args.
      * right. left. eexists. reflexivity.
    + right. left. exists message. reflexivity.
    + right. right. split; [exact Hh | reflexivity].
Qed.

(** What a successful parse says of its steps. *)
Lemma parse_args_ret (argv : list arg) (FLAGS : Namespace) :
  parse_args (F := F) argv = ret FLAGS <->
  first_ambiguous argv = None /\
  consume_args (F := F) argv defaults false false [] = ret (FLAGS, []).
Proof.
  unfold parse_args, parse_known_args. split.
  - destruct (first_ambiguous argv) as [[option matches]|]; [discriminate|].
    intros H. split; [reflexivity|].
    destruct (consume_args_cases argv defaults false false [])
      as [[[args extras] E]|[[message E]|[_ E]]]; rewrite E in H |- *;
      try discriminate H.
    rewrite bind_ret_l in H. destruct extras; [|discriminate H].
    inversion H. reflexivity.
  - intros [-> ->]. now rewrite bind_ret_l.
Qed.

(** C6, as the code has it. An invocation that gives both [--img] and
    [--img_dir] ends inside [parse_args], so before any connection is opened
    and before any path is looked at: in a usage error with exit status 2 or,
    if [-h] is among its arguments and argparse reaches it first, in the
    help with exit status 0. *)
Theorem both_image_sources_rejected (w : World F R) (argv : list arg) :
  gives_img argv = true ->
  gives_img_dir argv = true ->
  exists t code,
    parse_args (F := F) argv = (t, SystemExit (Some code)) /\
    main w argv = (t, SystemExit (Some code)) /\
    exit_status (result (main w argv)) = code /\
    ((code = 2%Z /\ exists message, t = [EvStderr ("error: " ++ message)]) \/
     (code = 0%Z /\ gives_help argv = true /\ t = [EvPrint help_message])) /\
    Forall (fun e => is_network e = false /\ is_filesystem e = false) t.
Proof.
  intros Hi Hd.
  assert (Hnot : forall FLAGS, parse_args (F := F) argv <> ret FLAGS).
  { intros FLAGS H. apply parse_args_ret in H as [_ H].
    revert H. apply consume_args_conflict; auto. }
  destruct (parse_args_cases argv) as [[FLAGS H]|[[message H]|[Hh H]]].
  - destruct (Hnot FLAGS H).
  - exists [EvStderr ("error: " ++ message)], 2%Z.
    assert (Hmain : main w argv = ([EvStderr ("error: " ++ message)], SystemExit (Some 2%Z)))
      by (unfold main; rewrite H; reflexivity).
    rewrite Hmain. split; [exact H|]. split; [reflexivity|]. split; [reflexivity|].
    split; [left; split; [reflexivity | now exists message]|].
    repeat constructor.
  - exists [EvPrint help_message], 0%Z.
    assert (Hmain : main w argv = ([EvPrint help_message], SystemExit (Some 0%Z)))
      by (unfold main; rewrite H; reflexivity).
    rewrite Hmain. split; [exact H|]. split; [reflexivity|]. split; [reflexivity|].
    split; [right; repeat split; assumption|].
    repeat constructor.
Qed.

Lemma well_formed_no_ambiguous (argv : list arg) :
  well_formed argv = true -> first_ambiguous argv = None.
Proof.
  induction argv as [|a rest IH]; [reflexivity|].
  cbn. intros H. apply andb_prop in H as [Ha H].
  destruct a; try discriminate Ha; now apply IH.
Qed.

Lemma parser_error_not_ret {A} (message : string) (a : A) :
  parser_error (F := F) message <> ret a.
Proof. discriminate. Qed.

Lemma help_exit_not_ret {A} (a : A) : help_exit (F := F) <> ret a.
Proof. discriminate. Qed.

(** What the parse knows after each argument: which members of the group it
    has taken, that it has stored a path for exactly those, which arguments
    it has set aside, and that it has accepted every other one. *)
Lemma consume_args_image_options (argv : list arg) (ns FLAGS : Namespace) (si sd : bool)
    (extras extras' : list string) :
  consume_args (F := F) argv ns si sd extras = ret (FLAGS, extras') ->
  is_some (img ns) = si -> is_some (img_dir ns) = sd -> si && sd = false ->
  is_some (img FLAGS) = si || gives_img argv /\
  is_some (img_dir FLAGS) = sd || gives_img_dir argv /\
  (si || gives_img argv) && (sd || gives_img_dir argv) = false /\
  extras' = extras ++ unrecognized argv /\
  (unrecognized argv = [] -> well_formed argv = true).
Proof.
  revert ns si sd extras.
  induction argv as [|a rest IH]; intros ns si sd extras Hp Hi Hd Hnot.
  - cbn in Hp. inversion Hp. subst. cbn. rewrite !orb_false_r, app_nil_r. auto.
  - cbn [consume_args] in Hp. apply bind_eq_ret in Hp as ([[ns' si'] sd'] & Ha & Hp).
    destruct ns.
    destruct a as [| | [?|] | [?|] | | | | | | | | | | | |]; cbn [take_action] in Ha;
      try (now apply parser_error_not_ret in Ha);
      try (now apply help_exit_not_ret in Ha);
      try (inversion Ha; subst ns' si' sd'; cbn in Hi, Hd;
           destruct (IH _ _ _ _ Hp Hi Hd Hnot) as (? & ? & ? & ? & ?);
           cbn; repeat split; assumption).
    + destruct sd; [now apply parser_error_not_ret in Ha|]. inversion Ha. subst ns' si' sd'.
      cbn in Hd.
      destruct (IH _ true false _ Hp eq_refl Hd eq_refl) as (? & ? & ? & ? & ?).
      cbn in *. rewrite orb_true_r. repeat split; assumption.
    + destruct si; [now apply parser_error_not_ret in Ha|]. inversion Ha. subst ns' si' sd'.
      cbn in Hi.
      destruct (IH _ false true _ Hp Hi eq_refl eq_refl) as (? & ? & ? & ? & ?).
      cbn in *. rewrite orb_true_r. repeat split; assumption.
    + inversion Ha. subst ns' si' sd'. cbn in Hi, Hd.
      destruct (IH _ _ _ _ Hp Hi Hd Hnot) as (? & ? & ? & -> & ?).
      cbn. rewrite <- app_assoc. repeat split; try assumption. discriminate.
Qed.

(** What a namespace returned by [parse_args] says of the invocation. *)
Lemma parse_args_ret_facts (argv : list arg) (FLAGS : Namespace) :
  parse_args (F := F) argv = ret FLAGS ->
  is_some (img FLAGS) = gives_img argv /\
  is_some (img_dir FLAGS) = gives_img_dir argv /\
  gives_img argv && gives_img_dir argv = false /\
  unrecognized argv = [] /\
  well_formed argv = true.
Proof.
  intros Hp. apply parse_args_ret in Hp as [_ Hp].
  destruct (consume_args_image_options _ _ _ _ _ _ _ Hp eq_refl eq_refl eq_refl)
    as (Hi & Hd & Hnot & Hex & Hwf).
  cbn in Hi, Hd, Hnot, Hex. symmetry in Hex.
  repeat split; try assumption. now apply Hwf.
Qed.

(** With accepted arguments and at most one member of the group, the
    arguments are all taken and none is set aside. *)
Lemma consume_args_succeeds (argv : list arg) (ns : Namespace) (si sd : bool)
    (extras : list string) :
  well_formed argv = true ->
  (si || gives_img argv) && (sd || gives_img_dir argv) = false ->
  exists FLAGS, consume_args (F := F) argv ns si sd extras = ret (FLAGS, extras).
Proof.
  revert ns si sd. induction argv as [|a rest IH]; intros ns si sd Hv Hnot.
  - now exists ns.
  - cbn [consume_args]. destruct ns.
    destruct a as [| | [?|] | [?|] | | | | | | | | | | | |]; cbn in Hv, Hnot; try discriminate Hv;
      cbn [take_action].
    all: try (rewrite bind_ret_l; apply IH; assumption).
    + rewrite orb_true_r in Hnot. cbn in Hnot.
      destruct sd; [discriminate Hnot|]. rewrite bind_ret_l.
      apply IH; [assumption | exact Hnot].
    + rewrite orb_true_r, andb_true_r in Hnot.
      destruct si; [discriminate Hnot|]. rewrite bind_ret_l.
      apply IH; [assumption | cbn; rewrite andb_true_r; exact Hnot].
Qed.

End ParseArgs.

Lemma both_image_sources_rejected_witness :
  exists t code,
    parse_args (F := unit) [Opt_img "images/a.jpg"; Opt_verbose; Opt_img_dir "images"]
      = (t, SystemExit (Some code)) /\
    main (demo_world true 1) [Opt_img "images/a.jpg"; Opt_verbose; Opt_img_dir "images"]
      = (t, SystemExit (Some code)) /\
    exit_status (result (main (demo_world true 1)
                   [Opt_img "images/a.jpg"; Opt_verbose; Opt_img_dir "images"])) = code /\
    ((code = 2%Z /\ exists message, t = [EvStderr ("error: " ++ message)]) \/
     (code = 0%Z /\
      gives_help [Opt_img "images/a.jpg"; Opt_verbose; Opt_img_dir "images"] = true /\
      t = [EvPrint help_message])) /\
    Forall (fun e => is_network e = false /\ is_filesystem e = false) t.
Proof.
  apply (both_image_sources_rejected (demo_world true 1)
           [Opt_img "images/a.jpg"; Opt_verbose; Opt_img_dir "images"]);
    reflexivity.
Defined.

(** C6, the claim against the code: with [-h] in front, an invocation that
    gives both image options does not fail; argparse prints the help and the
    process exits with status 0. *)
Lemma both_image_sources_help_counterexample :
  gives_img [Opt_help; Opt_img "a.jpg"; Opt_img_dir "images"] = true /\
  gives_img_dir [Opt_help; Opt_img "a.jpg"; Opt_img_dir "images"] = true /\
  main (demo_world true 1) [Opt_help; Opt_img "a.jpg"; Opt_img_dir "images"]
    = ([EvPrint help_message], SystemExit (Some 0%Z)) /\
  exit_status (result (main (demo_world true 1)
                 [Opt_help; Opt_img "a.jpg"; Opt_img_dir "images"])) = 0%Z.
Proof. repeat split. Qed.

(** ** The connection *)

(** When the client constructor raises, the run prints the failure and calls
    [sys.exit()] with no argument. *)
Lemma main_channel_error {F R} (w : World F R) (argv : list arg) (FLAGS : Namespace)
    (e : exception) :
  parse_args (F := F) argv = ret FLAGS ->
  channel_error w (url FLAGS) (verbose FLAGS) = Some e ->
  main w argv = ([EvConnect (url FLAGS) (verbose FLAGS);
                  EvPrint ("channel creation failed: " ++ str e)],
                 SystemExit None).
Proof.
  intros Hp He. unfold main. rewrite Hp, bind_ret_l.
  unfold InferenceServerClient. rewrite He. reflexivity.
Qed.

(** C2 (the code against the claim). Against a server that cannot be
    reached, the run prints "channel creation failed: ..." and ends through
    [sys.exit()]: the process exit status is 0, not a non-zero one. *)
Theorem connection_failure_exit_status :
  main (demo_world false 1) [Opt_img_dir "images"]
    = ([EvConnect "localhost:8001" false;
        EvPrint "channel creation failed: failed to connect to all addresses"],
       SystemExit None) /\
  exit_status (result (main (demo_world false 1) [Opt_img_dir "images"])) = 0%Z.
Proof.
  split; vm_compute; reflexivity.
Qed.

(** ** The statistics query *)

(** C4 (the code against the claim). Run with the default model name, the
    client sends its inference requests to "dali_backend" and then asks for
    the statistics of "dali", the name written into line 189; no statistics
    of "dali_backend" are asked for. *)
Theorem statistics_model_name_is_fixed :
  let run := main (demo_world true 1) [Opt_img_dir "images"] in
  (exists inputs outputs, In (EvInfer "dali_backend" inputs outputs) (trace run)) /\
  In (EvStatistics "dali") (trace run) /\
  ~ In (EvStatistics "dali_backend") (trace run).
Proof.
  vm_compute. split; [|split].
  - do 2 eexists. do 10 right. left. reflexivity.
  - do 12 right. left. reflexivity.
  - intros H. repeat (destruct H as [H|H]; [discriminate H|]). exact H.
Qed.

Section Statistics.
Context {F R : Type}.
Variable w : World F R.

Lemma result_bind {A B} (m : py F A) (f : A -> py F B) (a : A) :
  result m = Return a -> result (bind m f) = result (f a).
Proof.
  destruct m as [t o]. simpl. intros ->. now rewrite bind_return.
Qed.

(** An event of [P] behind a prefix that is silent for [P]: the prefix
    returned, and the run is the prefix's trace followed by the rest. *)
Lemma bind_silent_peel {A B} (P : event F -> bool) (m : py F A) (f : A -> py F B)
    (e : event F) :
  silent P m -> P e = true -> In e (trace (bind m f)) ->
  exists t a, In e (trace (f a)) /\ bind m f = (t ++ trace (f a), result (f a)).
Proof.
  intros Hm He Hin.
  destruct (bind_silent_inv P m f e Hm He Hin) as (t & a & -> & Hin').
  exists t, a. split; [exact Hin'|]. apply bind_return.
Qed.

Lemma get_inference_statistics_eq (name : string) :
  get_inference_statistics w name
  = ([EvStatistics name],
     match server_statistics w name with inl e => Raise e | inr s => Return s end).
Proof.
  unfold get_inference_statistics. now destruct (server_statistics w name).
Qed.

(** The report after a snapshot that does not list exactly one model. *)
Lemma report_mismatch (FLAGS : Namespace) (latencies : list R) (s : ModelStatisticsResponse) :
  server_statistics w "dali" = inr s ->
  length (model_stats s) <> 1 ->
  report w FLAGS latencies
  = ([EvStatistics "dali"; EvPrint "FAILED: Inference Statistics"], SystemExit (Some 1%Z)).
Proof.
  intros Hs Hn. unfold report. rewrite get_inference_statistics_eq, Hs.
  apply Nat.eqb_neq in Hn. rewrite bind_return, Hn. reflexivity.
Qed.

(** The only statistics query of a report names "dali". *)
Lemma report_statistics_name (FLAGS : Namespace) (latencies : list R) (name : string) :
  In (EvStatistics name) (trace (report w FLAGS latencies)) -> name = "dali".
Proof.
  unfold report. rewrite get_inference_statistics_eq.
  destruct (server_statistics w "dali") as [e|s].
  - simpl. intros [H|[]]. now inversion H.
  - rewrite bind_return. simpl. intros [H|H]; [now inversion H|].
    exfalso.
    match type of H with
    | In _ (trace ?m) => assert (Hsil : silent is_statistics m)
    end.
    { silence; apply silent_print; reflexivity. }
    unfold silent in Hsil. rewrite Forall_forall in Hsil.
    specialize (Hsil _ H). discriminate.
Qed.

(** A run that queries statistics got as far as its report. *)
Lemma main_reaches_report (argv : list arg) (e : event F) :
  is_statistics e = true ->
  In e (trace (main w argv)) ->
  exists pre FLAGS latencies,
    In e (trace (report w FLAGS latencies)) /\
    main w argv = (pre ++ trace (report w FLAGS latencies),
                   result (report w FLAGS latencies)).
Proof.
  intros He Hin. unfold main in *.
  apply bind_silent_peel with (P := is_statistics) in Hin as (t1 & FLAGS & Hin & ->);
    [|apply silent_parse_args; reflexivity|exact He].
  apply bind_silent_peel with (P := is_statistics) in Hin as (t2 & client & Hin & ->);
    [|apply silent_connect; try reflexivity; intros; silence; apply silent_print; reflexivity
     |exact He].
  cbv zeta in Hin |- *.
  apply bind_silent_peel with (P := is_statistics) in Hin as (t3 & u3 & Hin & ->);
    [|apply silent_print; reflexivity|exact He].
  apply bind_silent_peel with (P := is_statistics) in Hin as (t4 & images & Hin & ->);
    [|apply silent_load_images; reflexivity|exact He].
  apply bind_silent_peel with (P := is_statistics) in Hin as (t5 & image_data & Hin & ->);
    [|apply silent_array_from_list; intros; apply silent_pad_uint8|exact He].
  apply bind_silent_peel with (P := is_statistics) in Hin as (t6 & u6 & Hin & ->);
    [|apply silent_print; reflexivity|exact He].
  apply bind_silent_peel with (P := is_statistics) in Hin as (t7 & latencies & Hin & ->);
    [|apply silent_fold_py; intros; apply silent_infer_batch; reflexivity|exact He].
  exists (t1 ++ t2 ++ t3 ++ t4 ++ t5 ++ t6 ++ t7), FLAGS, latencies.
  split; [exact Hin|]. simpl. now rewrite <- !app_assoc.
Qed.

(** Whatever [-m] says, a run asks for the statistics of "dali" only. *)
Lemma main_statistics_name (argv : list arg) (name : string) :
  In (EvStatistics name) (trace (main w argv)) -> name = "dali".
Proof.
  intros Hin.
  destruct (main_reaches_report argv (EvStatistics name) eq_refl Hin)
    as (pre & FLAGS & latencies & Hin' & _).
  now apply report_statistics_name in Hin'.
Qed.

(** C3. In every run that queries statistics and whose snapshot does not
    list exactly one model (none, or two or more), the run ends through
    [sys.exit(1)], exit status 1, not in an exception, and the last thing it
    does after the query is to print a line that contains "FAILED". *)
Theorem statistics_mismatch_fails (argv : list arg) (name : string)
    (s : ModelStatisticsResponse) :
  In (EvStatistics name) (trace (main w argv)) ->
  server_statistics w name = inr s ->
  length (model_stats s) <> 1 ->
  result (main w argv) = SystemExit (Some 1%Z) /\
  exit_status (result (main w argv)) = 1%Z /\
  exists pre line,
    trace (main w argv) = pre ++ [EvStatistics name; EvPrint line] /\
    contains "FAILED" line = true.
Proof.
  intros Hin Hs Hn.
  destruct (main_reaches_report argv (EvStatistics name) eq_refl Hin)
    as (pre & FLAGS & latencies & Hin' & Hmain).
  apply report_statistics_name in Hin'. subst name.
  rewrite (report_mismatch FLAGS latencies s Hs Hn) in Hmain.
  rewrite Hmain. simpl. repeat split.
  exists pre, "FAILED: Inference Statistics". split; reflexivity.
Qed.

End Statistics.

Lemma statistics_mismatch_fails_witness :
  result (main (demo_world true 2) [Opt_img_dir "images"]) = SystemExit (Some 1%Z) /\
  exit_status (result (main (demo_world true 2) [Opt_img_dir "images"])) = 1%Z /\
  exists pre line,
    trace (main (demo_world true 2) [Opt_img_dir "images"])
      = pre ++ [EvStatistics "dali"; EvPrint line] /\
    contains "FAILED" line = true.
Proof.
  apply (statistics_mismatch_fails (demo_world true 2) [Opt_img_dir "images"] "dali"
           (mkModelStatisticsResponse (repeat (mkModelStatistics "dali" "1" 1) 2))).
  - vm_compute. do 12 right. left. reflexivity.
  - reflexivity.
  - simpl. lia.
Defined.

(** ** Image acquisition *)

Section Loading.
Context {F R : Type}.
Variable w : World F R.

Lemma os_listdir_eq (p : option string) :
  os_listdir w p
  = ([EvListdir p],
     let q := match p with None => "." | Some q => q end in
     match fs w q with
     | Directory entries => Return entries
     | RegularFile _ => Raise (Exc NotADirectoryError q)
     | Absent => Raise (Exc FileNotFoundError q)
     end).
Proof. unfold os_listdir. simpl. now destruct (fs w _). Qed.

Lemma os_listdir_directory (d : string) (entries : list string) :
  fs w d = Directory entries ->
  os_listdir w (Some d) = ([EvListdir (Some d)], Return entries).
Proof. intros Hd. rewrite os_listdir_eq. simpl. now rewrite Hd. Qed.

(** The loader with the cap of 15: the assertion passes and the slice keeps
    the first 15 paths. *)
Lemma load_images_15 (d : option string) :
  load_images w d 15
  = (listing <- os_listdir w d ;;
     is_file <- os_path_isfile w d ;;
     img_paths <- (if is_file then ret [d] else path_generator w d listing) ;;
     map_py (load_image w) (firstn 15 img_paths)).
Proof. unfold load_images. simpl assert_. now rewrite bind_ret_l. Qed.

Lemma os_path_join_eq (d f : string) :
  os_path_join (F := F) (Some d) f = ret (Some (posix_join d f)).
Proof. reflexivity. Qed.

Lemma os_path_isfile_eq (p : string) :
  os_path_isfile w (Some p) = ([EvIsfile (Some p)], Return (is_regular w p)).
Proof. reflexivity. Qed.

Lemma load_image_eq (p : string) :
  load_image w (Some p)
  = ([EvOpen p],
     match fs w p with
     | RegularFile content => Return content
     | Directory _ => Raise (Exc IsADirectoryError p)
     | Absent => Raise (Exc FileNotFoundError p)
     end).
Proof. unfold load_image. now destruct (fs w p). Qed.

(** Without a path the loader stops at [os.path.isfile(None)], or before it
    when the current directory cannot be listed: it reads nothing. *)
Lemma load_images_no_path :
  exists e, load_images w None 15 = ([EvListdir None], Raise e).
Proof.
  rewrite load_images_15, os_listdir_eq. simpl.
  destruct (fs w "."); eexists; reflexivity.
Qed.

(** What the generator yields for a directory [d]. *)
Lemma path_generator_result (d : string) (entries : list string) :
  result (path_generator w (Some d) entries) = Return (map Some (files_of w d entries)) /\
  silent is_open (path_generator w (Some d) entries).
Proof.
  split; [|apply silent_path_generator; reflexivity].
  unfold files_of. induction entries as [|f rest IH]; [reflexivity|].
  cbn [path_generator map filter]. rewrite os_path_join_eq, bind_ret_l.
  rewrite os_path_isfile_eq, bind_return. simpl result.
  destruct (is_regular w (posix_join d f)); try exact IH.
  rewrite bind_ret_l.
  erewrite result_bind by exact IH. reflexivity.
Qed.

(** Reading a list of regular files: their contents, one [open] each. *)
Lemma load_all (ps : list string) :
  Forall (fun p => is_regular w p = true) ps ->
  map_py (load_image w) (map Some ps) = (map EvOpen ps, Return (map (file_content w) ps)).
Proof.
  induction 1 as [|p ps Hp _ IH]; [reflexivity|].
  cbn [map map_py]. rewrite load_image_eq. unfold is_regular in Hp.
  unfold file_content at 1.
  destruct (fs w p) as [| |content]; try discriminate.
  rewrite bind_return, IH, bind_return. unfold ret, trace, result. simpl.
  now rewrite app_nil_r.
Qed.

Lemma Forall_firstn_keeps {A} (Q : A -> Prop) (n : nat) (l : list A) :
  Forall Q l -> Forall Q (firstn n l).
Proof.
  intros H. revert n. induction H as [|x l Hx _ IH]; intros [|n]; simpl; auto.
Qed.

Lemma filter_open_opens (ps : list string) :
  filter is_open (map (EvOpen (F := F)) ps) = map EvOpen ps.
Proof. induction ps as [|p ps IH]; simpl; congruence. Qed.

Lemma files_of_regular (d : string) (entries : list string) :
  Forall (fun p => is_regular w p = true) (files_of w d entries).
Proof. apply Forall_forall. intros p Hp. now apply filter_In in Hp. Qed.

(** [load_images] on a directory, with the cap of 15. *)
Lemma load_images_directory (d : string) (entries : list string) :
  fs w d = Directory entries ->
  result (load_images w (Some d) 15)
    = Return (map (file_content w) (firstn 15 (files_of w d entries))) /\
  filter is_open (trace (load_images w (Some d) 15))
    = map EvOpen (firstn 15 (files_of w d entries)).
Proof.
  intros Hd.
  assert (Hreg : is_regular w d = false) by (unfold is_regular; now rewrite Hd).
  destruct (path_generator_result d entries) as [Hres Hsil].
  rewrite load_images_15, (os_listdir_directory d entries Hd), os_path_isfile_eq, Hreg.
  rewrite !bind_return. cbv beta.
  destruct (path_generator w (Some d) entries) as [t o] eqn:E. simpl in Hres. subst o.
  rewrite !bind_return. cbv beta. rewrite firstn_map.
  rewrite load_all by (apply Forall_firstn_keeps, files_of_regular).
  unfold trace, result. cbn [fst snd]. split; [reflexivity|].
  cbn [app filter is_open]. rewrite filter_app.
  replace (filter is_open t) with (@nil (event F)).
  - apply filter_open_opens.
  - symmetry. exact (filter_silent is_open _ Hsil).
Qed.

(** [n] paths are read with at most [n] opens. *)
Lemma opens_of_map_load (ps : list (option string)) :
  length (filter is_open (trace (map_py (load_image w) ps))) <= length ps.
Proof.
  induction ps as [|p ps IH]; [apply Nat.le_refl|].
  cbn [map_py length]. destruct p as [p|]; [|apply Nat.le_0_l].
  rewrite load_image_eq.
  destruct (fs w p) as [| |content].
  - simpl. lia.
  - simpl. lia.
  - rewrite bind_return. simpl.
    rewrite filter_bind_silent_r by (intros; apply silent_ret). lia.
Qed.

(** Whatever the path and the filesystem, the loader opens at most 15 files. *)
Lemma load_images_opens (d : option string) :
  length (filter is_open (trace (load_images w d 15))) <= 15.
Proof.
  rewrite load_images_15.
  destruct (filter_bind_silent_l is_open (os_listdir w d)
              (fun listing =>
                 is_file <- os_path_isfile w d ;;
                 img_paths <- (if is_file then ret [d] else path_generator w d listing) ;;
                 map_py (load_image w) (firstn 15 img_paths)))
    as [E|(listing & _ & E)];
    [apply silent_os_listdir; reflexivity | rewrite E; apply Nat.le_0_l | rewrite E; clear E].
  destruct (filter_bind_silent_l is_open (os_path_isfile w d)
              (fun is_file : bool =>
                 img_paths <- (if is_file then ret [d] else path_generator w d listing) ;;
                 map_py (load_image w) (firstn 15 img_paths)))
    as [E|(is_file & _ & E)];
    [apply silent_os_path_isfile; reflexivity | rewrite E; apply Nat.le_0_l
    | rewrite E; clear E].
  destruct (filter_bind_silent_l is_open
              (if is_file then ret [d] else path_generator w d listing)
              (fun img_paths => map_py (load_image w) (firstn 15 img_paths)))
    as [E|(img_paths & _ & E)];
    [destruct is_file; [apply silent_ret | apply silent_path_generator; reflexivity]
    | rewrite E; apply Nat.le_0_l | rewrite E; clear E].
  etransitivity; [apply opens_of_map_load|]. apply firstn_le_length.
Qed.

(** The files the whole run opens are those its loader opens. *)
Lemma main_opens (argv : list arg) :
  filter is_open (trace (main w argv)) = [] \/
  exists d, filter is_open (trace (main w argv))
            = filter is_open (trace (load_images w d 15)).
Proof.
  unfold main.
  match goal with |- context [bind (parse_args argv) ?f] =>
    destruct (filter_bind_silent_l is_open (parse_args argv) f)
      as [E|(FLAGS & _ & E)];
      [apply silent_parse_args; reflexivity | now left | rewrite E; clear E]
  end.
  match goal with |- context [bind (try_except ?b ?h) ?f] =>
    destruct (filter_bind_silent_l is_open (try_except b h) f)
      as [E|(client & _ & E)];
      [apply silent_connect; try reflexivity; intros; silence; apply silent_print; reflexivity
      | now left | rewrite E; clear E]
  end.
  cbv zeta.
  match goal with |- context [bind (print ?l) ?f] =>
    destruct (filter_bind_silent_l is_open (print l) f)
      as [E|(u & _ & E)];
      [apply silent_print; reflexivity | now left | rewrite E; clear E]
  end.
  right. eexists. apply filter_bind_silent_r. intros images.
  apply silent_bind.
  { apply silent_array_from_list; intros; apply silent_pad_uint8. }
  intros image_data. apply silent_bind; [apply silent_print; reflexivity|]. intros _.
  apply silent_bind.
  { apply silent_fold_py; intros; apply silent_infer_batch; reflexivity. }
  intros latencies. apply silent_report; reflexivity.
Qed.

(** Whatever the invocation and the outside world, a run opens at most 15
    files. *)
Lemma main_opens_at_most_15 (argv : list arg) :
  images_read (trace (main w argv)) <= 15.
Proof.
  unfold images_read. destruct (main_opens argv) as [E|[d E]]; rewrite E.
  - apply Nat.le_0_l.
  - apply load_images_opens.
Qed.

(** The generator over a directory's listing: one [os.path.isfile] for each
    entry, and the paths of the regular files among them. *)
Lemma path_generator_eq (d : string) (entries : list string) :
  path_generator w (Some d) entries
  = (map (fun f => EvIsfile (Some (posix_join d f))) entries,
     Return (map Some (files_of w d entries))).
Proof.
  unfold files_of. induction entries as [|f rest IH]; [reflexivity|].
  cbn [path_generator map filter]. rewrite os_path_join_eq, bind_ret_l.
  rewrite os_path_isfile_eq, bind_return.
  destruct (is_regular w (posix_join d f)).
  - rewrite bind_ret_l, IH, bind_return.
    unfold ret, trace, result. cbn [fst snd app map]. now rewrite app_nil_r.
  - rewrite IH. reflexivity.
Qed.

(** [load_images] on a directory, with the cap of 15, event by event. *)
Lemma load_images_directory_eq (d : string) (entries : list string) :
  fs w d = Directory entries ->
  load_images w (Some d) 15
  = ([EvListdir (Some d); EvIsfile (Some d)]
     ++ map (fun f => EvIsfile (Some (posix_join d f))) entries
     ++ map EvOpen (firstn 15 (files_of w d entries)),
     Return (map (file_content w) (firstn 15 (files_of w d entries)))).
Proof.
  intros Hd.
  assert (Hreg : is_regular w d = false) by (unfold is_regular; now rewrite Hd).
  rewrite load_images_15, (os_listdir_directory d entries Hd), os_path_isfile_eq, Hreg.
  rewrite !bind_return. cbv beta. rewrite path_generator_eq.
  rewrite !bind_return. cbv beta. rewrite firstn_map.
  rewrite load_all by (apply Forall_firstn_keeps, files_of_regular).
  unfold trace, result. cbn [fst snd app]. reflexivity.
Qed.

Lemma connect_ok (u : string) (v : bool) (handler : exception -> py F unit) :
  channel_error w u v = None ->
  try_except (InferenceServerClient w u v) handler = ([EvConnect u v], Return tt).
Proof. intros Hc. unfold InferenceServerClient. now rewrite Hc. Qed.

(** A run that parsed and connected: what is left is to load the images,
    from [--img_dir] if given and else from [--img], and to go on from there. *)
Lemma main_to_loading (argv : list arg) (FLAGS : Namespace) :
  parse_args (F := F) argv = ret FLAGS ->
  channel_error w (url FLAGS) (verbose FLAGS) = None ->
  let rest :=
    image_data <- load_images w (match img_dir FLAGS with
                                 | Some d => Some d
                                 | None => img FLAGS
                                 end) 15 ;;
    image_data <- array_from_list image_data ;;
    print ["Images loaded"] ;;
    latencies <- fold_py (infer_batch w FLAGS (model_name FLAGS))
                   (enumerate (batcher image_data (batch_size FLAGS) (n_iter FLAGS)))
                   [] ;;
    report w FLAGS latencies in
  main w argv
  = ([EvConnect (url FLAGS) (verbose FLAGS); EvPrint "Loading images"] ++ trace rest,
     result rest).
Proof.
  intros Hp Hc rest. unfold main. rewrite Hp, bind_ret_l, (connect_ok _ _ _ Hc).
  rewrite bind_return. cbv zeta.
  change (print (F := F) ["Loading images"])
    with ([EvPrint (F := F) "Loading images"], Return tt).
  rewrite bind_return. reflexivity.
Qed.

(** C9, as the code has it. Whatever the invocation and the outside world, a
    run opens at most 15 image files. A run that parsed, connected and was
    given a directory lists it, asks of each entry whether it is a regular
    file, and opens the first 15 regular files of the listing, in the
    listing's order (an entry that is no regular file is skipped and does
    not count); the rest of the run, from [array_from_list] to the closing
    report, is computed from the contents of these files alone. *)
Theorem at_most_15_images_loaded (argv : list arg) :
  images_read (trace (main w argv)) <= 15 /\
  (forall FLAGS d entries,
      parse_args (F := F) argv = ret FLAGS ->
      channel_error w (url FLAGS) (verbose FLAGS) = None ->
      match img_dir FLAGS with Some d' => Some d' | None => img FLAGS end = Some d ->
      fs w d = Directory entries ->
      let chosen := firstn 15 (files_of w d entries) in
      let rest :=
        image_data <- array_from_list (map (file_content w) chosen) ;;
        print ["Images loaded"] ;;
        latencies <- fold_py (infer_batch w FLAGS (model_name FLAGS))
                       (enumerate (batcher image_data (batch_size FLAGS) (n_iter FLAGS)))
                       [] ;;
        report w FLAGS latencies in
      filter is_open (trace (main w argv)) = map EvOpen chosen /\
      main w argv
      = ([EvConnect (url FLAGS) (verbose FLAGS); EvPrint "Loading images";
          EvListdir (Some d); EvIsfile (Some d)]
         ++ map (fun f => EvIsfile (Some (posix_join d f))) entries
         ++ map EvOpen chosen
         ++ trace rest,
         result rest)).
Proof.
  split; [apply main_opens_at_most_15|].
  intros FLAGS d entries Hp Hc Hsrc Hd chosen rest.
  rewrite (main_to_loading argv FLAGS Hp Hc). cbv zeta. rewrite Hsrc.
  split.
  - cbn [trace fst app filter is_open].
    rewrite filter_bind_silent_r.
    + apply (load_images_directory d entries Hd).
    + intros images. apply silent_bind.
      { apply silent_array_from_list; intros; apply silent_pad_uint8. }
      intros image_data. apply silent_bind; [apply silent_print; reflexivity|]. intros _.
      apply silent_bind.
      { apply silent_fold_py; intros; apply silent_infer_batch; reflexivity. }
      intros latencies. apply silent_report; reflexivity.
  - rewrite (load_images_directory_eq d entries Hd), bind_return.
    fold chosen. fold rest. cbn [trace result fst snd app].
    rewrite <- !app_assoc. reflexivity.
Qed.

(** C7, as the code has it. An invocation that gives neither [--img] nor
    [--img_dir] reads no image file: no default image source takes the place
    of the missing options. Where [parse_args] returns a namespace, both
    image paths in it are [None]; and it does return one whenever the
    arguments are declared options with values they take. *)
Theorem no_image_option_leaves_no_path (argv : list arg) :
  gives_img argv = false ->
  gives_img_dir argv = false ->
  images_read (trace (main w argv)) = 0 /\
  (forall FLAGS, parse_args (F := F) argv = ret FLAGS ->
                 img FLAGS = None /\ img_dir FLAGS = None) /\
  (well_formed argv = true ->
   exists FLAGS, parse_args (F := F) argv = ret FLAGS /\
                 img FLAGS = None /\ img_dir FLAGS = None).
Proof.
  intros Hi Hd.
  assert (Hnone : forall FLAGS, parse_args (F := F) argv = ret FLAGS ->
                                img FLAGS = None /\ img_dir FLAGS = None).
  { intros FLAGS Hp. apply parse_args_ret_facts in Hp as (Himg & Hdir & _).
    rewrite Hi in Himg. rewrite Hd in Hdir.
    destruct (img FLAGS), (img_dir FLAGS); try discriminate. now split. }
  split; [|split; [exact Hnone|]].
  - unfold images_read.
    destruct (parse_args_cases (F := F) argv) as [[FLAGS Hp]|[[message Hp]|[_ Hp]]].
    + destruct (Hnone FLAGS Hp) as [Himg Hdir].
      unfold main. rewrite Hp, bind_ret_l.
      match goal with |- context [bind (try_except ?b ?h) ?f] =>
        destruct (filter_bind_silent_l is_open (try_except b h) f)
          as [E|(client & _ & E)];
          [apply silent_connect; try reflexivity; intros; silence;
           apply silent_print; reflexivity
          | now rewrite E | rewrite E; clear E]
      end.
      cbv zeta. rewrite Hdir, Himg.
      destruct load_images_no_path as [e He]. rewrite He. reflexivity.
    + unfold main. rewrite Hp. reflexivity.
    + unfold main. rewrite Hp. reflexivity.
  - intros Hv.
    destruct (consume_args_succeeds (F := F) argv defaults false false [] Hv)
      as [FLAGS Hp].
    { cbn. now rewrite Hi. }
    assert (Hret : parse_args (F := F) argv = ret FLAGS).
    { apply parse_args_ret. split; [now apply well_formed_no_ambiguous | exact Hp]. }
    exists FLAGS. split; [exact Hret | now apply Hnone].
Qed.

End Loading.

Lemma at_most_15_images_loaded_witness :
  let argv := [Opt_img_dir "many"] in
  let chosen := firstn 15 (files_of many_world "many" many_entries) in
  length (files_of many_world "many" many_entries) = 16 /\
  images_read (trace (main many_world argv)) <= 15 /\
  filter is_open (trace (main many_world argv)) = map EvOpen chosen.
Proof.
  intros argv chosen.
  destruct (at_most_15_images_loaded many_world argv) as [Hcap Hdir].
  split; [reflexivity|]. split; [exact Hcap|].
  exact (proj1 (Hdir (mkNamespace false "localhost:8001" 1 (-1) "dali_backend" "INPUT"
                                  "OUTPUT" false false None (Some "many"))
                     "many" many_entries eq_refl eq_refl eq_refl eq_refl)).
Defined.

(** C9, the claim against the code: the listing of [many] starts with a
    subdirectory, so its first 15 entries end at [f14]; the run nevertheless
    opens [f15], the 16th entry, and sends its content to the server. *)
Lemma first_15_entries_counterexample :
  fs many_world "many" = Directory many_entries /\
  nth_error many_entries 15 = Some "f15" /\
  ~ In "f15" (firstn 15 many_entries) /\
  In (EvOpen "many/f15") (trace (main many_world [Opt_img_dir "many"])) /\
  In (raw_request defaults "dali_backend" [[x0f]])
     (trace (main many_world [Opt_img_dir "many"])).
Proof.
  split; [reflexivity|]. split; [reflexivity|]. split.
  - cbn. intros H.
    repeat (destruct H as [H|H]; [discriminate H|]). exact H.
  - split; vm_compute; tauto.
Qed.

(** The demo directory: the subdirectory is skipped, both files are read. *)
Example load_images_demo :
  load_images (demo_world true 1) (Some "images") 15
  = ([EvListdir (Some "images"); EvIsfile (Some "images");
      EvIsfile (Some "images/a.jpg"); EvIsfile (Some "images/sub");
      EvIsfile (Some "images/b.jpg"); EvOpen "images/a.jpg"; EvOpen "images/b.jpg"],
     Return [[x01; x02; x03]; [xff]]).
Proof. reflexivity. Qed.

(** A single file given as the path: [os.listdir] refuses it at line 79. *)
Example load_images_single_file :
  load_images (demo_world true 1) (Some "images/a.jpg") 15
  = ([EvListdir (Some "images/a.jpg")], Raise (Exc NotADirectoryError "images/a.jpg")).
Proof. reflexivity. Qed.

(** C7, the claim against the code: run with no image option against a
    reachable server, the client does not go on with images of a default
    source; it ends in the [TypeError] of [os.path.isfile(None)], having
    listed the current directory and read no file. *)
Lemma no_default_image_source_counterexample :
  gives_img [] = false /\ gives_img_dir [] = false /\
  main (demo_world true 1) []
    = ([EvConnect "localhost:8001" false; EvPrint "Loading images"; EvListdir None],
       Raise (Exc TypeError
         "stat: path should be string, bytes, os.PathLike or integer, not NoneType")) /\
  images_read (trace (main (demo_world true 1) [])) = 0.
Proof. repeat split. Qed.

Lemma no_image_option_leaves_no_path_witness :
  let argv := [Opt_statistics; Opt_batch_size (Some 2%Z)] in
  images_read (trace (main (demo_world true 1) argv)) = 0 /\
  exists FLAGS,
    parse_args (F := unit) argv = ret FLAGS /\ img FLAGS = None /\ img_dir FLAGS = None.
Proof.
  intros argv.
  destruct (no_image_option_leaves_no_path (demo_world true 1) argv eq_refl eq_refl)
    as (Hread & _ & Hparse).
  split; [exact Hread | exact (Hparse eq_refl)].
Defined.

(** Without an image option the run also ends inside the parser when the
    parser refuses the invocation, or prints the help. *)
Example no_image_option_refused :
  main (demo_world true 1) [Arg_unrecognized "stray"]
    = ([EvStderr "error: unrecognized arguments: stray"], SystemExit (Some 2%Z)) /\
  main (demo_world true 1) [Opt_no_value "-u/--url"]
    = ([EvStderr "error: argument -u/--url: expected one argument"], SystemExit (Some 2%Z)) /\
  main (demo_world true 1) [Opt_help] = ([EvPrint help_message], SystemExit (Some 0%Z)).
Proof. repeat split. Qed.

(** ** The batching iterator *)

Section Batcher.
Context {A : Type}.

Lemma firstn_plus (n m : nat) (l : list A) :
  firstn (n + m) l = firstn n l ++ firstn m (skipn n l).
Proof.
  revert l. induction n as [|n IH]; intros l; [reflexivity|].
  destruct l as [|x l]; simpl.
  - now rewrite firstn_nil.
  - now rewrite IH.
Qed.

(** The first [k] chunks of size [b], put end to end. *)
Lemma concat_chunks (b k : nat) (l : list A) :
  concat (map (fun i => firstn b (skipn (i * b) l)) (seq 0 k)) = firstn (k * b) l.
Proof.
  induction k as [|k IH]; [reflexivity|].
  rewrite seq_S, map_app, concat_app, IH. simpl.
  rewrite app_nil_r, <- firstn_plus. f_equal. lia.
Qed.

(** [(n + b - 1) / b] is the ceiling of [n / b]. *)
Lemma ceil_div_spec (n b : nat) :
  0 < b -> n <= (n + b - 1) / b * b < n + b.
Proof.
  intros Hb.
  pose proof (Nat.div_mod_eq (n + b - 1) b) as E.
  pose proof (Nat.mod_upper_bound (n + b - 1) b ltac:(lia)) as Hr.
  nia.
Qed.

Lemma nth_map_seq (f : nat -> list A) (k i : nat) :
  i < k -> nth i (map f (seq 0 k)) [] = f i.
Proof.
  intros Hi.
  rewrite (nth_indep _ [] (f 0)) by (rewrite length_map, length_seq; exact Hi).
  rewrite map_nth, seq_nth by exact Hi. reflexivity.
Qed.

Lemma cyclic_window_map (dataset : list A) (d : A) (start len : nat) :
  dataset <> [] ->
  cyclic_window dataset start len
  = map (fun j => nth ((start + j) mod length dataset) dataset d) (seq 0 len).
Proof.
  intros Hne. unfold cyclic_window.
  assert (HN : length dataset <> 0) by (destruct dataset; [congruence | discriminate]).
  induction (seq 0 len) as [|j js IH]; [reflexivity|].
  cbn [flat_map map]. rewrite IH.
  rewrite (nth_error_nth' dataset d) by (apply Nat.mod_upper_bound; exact HN).
  reflexivity.
Qed.

Lemma cyclic_window_length (dataset : list A) (start len : nat) :
  dataset <> [] -> length (cyclic_window dataset start len) = len.
Proof.
  intros Hne. destruct dataset as [|d rest]; [congruence|].
  rewrite (cyclic_window_map _ d) by exact Hne.
  now rewrite length_map, length_seq.
Qed.

Lemma cyclic_window_nth (dataset : list A) (start len j : nat) :
  dataset <> [] -> j < len ->
  nth_error (cyclic_window dataset start len) j
  = nth_error dataset ((start + j) mod length dataset).
Proof.
  intros Hne Hj. destruct dataset as [|d rest] eqn:E; [congruence|]. rewrite <- E in *.
  assert (HN : length dataset <> 0) by (subst; discriminate).
  rewrite (cyclic_window_map _ d) by exact Hne.
  rewrite nth_error_map, nth_error_seq.
  destruct (Nat.ltb_spec j len); [|lia]. simpl.
  symmetry. apply nth_error_nth'. apply Nat.mod_upper_bound. exact HN.
Qed.

Lemma batcher_uncapped (dataset : list A) (B : Z) :
  (0 < B)%Z ->
  batcher dataset B (-1)
  = map (fun i => firstn (Z.to_nat B) (skipn (i * Z.to_nat B) dataset))
        (seq 0 ((length dataset + Z.to_nat B - 1) / Z.to_nat B)).
Proof.
  intros HB. unfold batcher.
  destruct (Nat.eqb_spec (Z.to_nat B) 0); [lia|]. reflexivity.
Qed.

Lemma batcher_capped (dataset : list A) (B K : Z) :
  (0 < B)%Z -> (0 <= K)%Z -> dataset <> [] ->
  batcher dataset B K
  = map (fun i => cyclic_window dataset (i * Z.to_nat B) (Z.to_nat B))
        (seq 0 (Z.to_nat K)).
Proof.
  intros HB HK Hne. unfold batcher.
  destruct (Nat.eqb_spec (Z.to_nat B) 0); [lia|].
  destruct (Z.ltb_spec K 0); [lia|].
  destruct (Nat.eqb_spec (length dataset) 0) as [E|_]; [|reflexivity].
  destruct dataset; [congruence | discriminate].
Qed.

(** C5. For a batch size of at least 1: with no iteration cap ([n_iterations]
    is -1) the iterator yields ceil(N / B) batches which, put end to end, are
    the dataset (every image once, in order); no batch is empty or longer
    than B, and every batch but the last holds exactly B images. With a cap
    of K iterations over a dataset that is not empty it yields exactly K
    batches of exactly B images each, the [j]-th image of the [i]-th batch
    being the image at position (i * B + j) mod N: past the end of the
    dataset it starts again at the first image. *)
Theorem batcher_covers_or_cycles (dataset : list A) (B : Z) :
  (0 < B)%Z ->
  let N := length dataset in
  let b := Z.to_nat B in
  (let batches := batcher dataset B (-1) in
   length batches = (N + b - 1) / b /\
   N <= length batches * b < N + b /\
   concat batches = dataset /\
   Forall (fun batch => 1 <= length batch <= b) batches /\
   (forall i, S i < length batches -> length (nth i batches []) = b)) /\
  (forall K : Z,
      (0 <= K)%Z -> dataset <> [] ->
      let batches := batcher dataset B K in
      length batches = Z.to_nat K /\
      Forall (fun batch => length batch = b) batches /\
      (forall i j, i < Z.to_nat K -> j < b ->
         nth_error (nth i batches []) j = nth_error dataset ((i * b + j) mod N))).
Proof.
  intros HB N b.
  assert (Hb : 0 < b) by (unfold b; lia).
  pose proof (ceil_div_spec N b Hb) as Hceil.
  split.
  - cbv zeta. rewrite (batcher_uncapped dataset B HB). fold b. fold N.
    set (k := (N + b - 1) / b) in *.
    assert (Hlen : length (map (fun i => firstn b (skipn (i * b) dataset)) (seq 0 k)) = k)
      by now rewrite length_map, length_seq.
    rewrite Hlen. split; [reflexivity|]. split; [exact Hceil|]. split; [|split].
    + rewrite concat_chunks. apply firstn_all2. fold N. lia.
    + apply Forall_forall. intros batch Hin.
      apply in_map_iff in Hin as (i & <- & Hi). apply in_seq in Hi.
      rewrite length_firstn, length_skipn. fold N. nia.
    + intros i Hi. rewrite nth_map_seq by lia.
      rewrite length_firstn, length_skipn. fold N. nia.
  - intros K HK Hne. cbv zeta. rewrite (batcher_capped dataset B K HB HK Hne). fold b.
    split; [|split].
    + now rewrite length_map, length_seq.
    + apply Forall_forall. intros batch Hin.
      apply in_map_iff in Hin as (i & <- & _).
      now apply cyclic_window_length.
    + intros i j Hi Hj. rewrite nth_map_seq by exact Hi.
      now apply cyclic_window_nth.
Qed.

End Batcher.

Example batcher_once : batcher [1; 2; 3; 4; 5] 2 (-1) = [[1; 2]; [3; 4]; [5]].
Proof. reflexivity. Qed.

Example batcher_cycles : batcher [1; 2; 3; 4; 5] 2 4 = [[1; 2]; [3; 4]; [5; 1]; [2; 3]].
Proof. reflexivity. Qed.

Lemma batcher_covers_or_cycles_witness :
  let dataset := [1; 2; 3; 4; 5] in
  let N := length dataset in
  let b := Z.to_nat 2 in
  (let batches := batcher dataset 2 (-1) in
   length batches = (N + b - 1) / b /\
   N <= length batches * b < N + b /\
   concat batches = dataset /\
   Forall (fun batch => 1 <= length batch <= b) batches /\
   (forall i, S i < length batches -> length (nth i batches []) = b)) /\
  (forall K : Z,
      (0 <= K)%Z -> dataset <> [] ->
      let batches := batcher dataset 2 K in
      length batches = Z.to_nat K /\
      Forall (fun batch => length batch = b) batches /\
      (forall i j, i < Z.to_nat K -> j < b ->
         nth_error (nth i batches []) j = nth_error dataset ((i * b + j) mod N))).
Proof.
  apply (batcher_covers_or_cycles [1; 2; 3; 4; 5] 2). lia.
Defined.

(** * Further properties of the client *)

(** ** More on configuration resolution *)

Section ParseArgsMore.
Context {F : Type}.

(** X1. [parse_args] returns a namespace exactly when every argument is a
    declared option with a value it takes (no [-h], no argument argparse does
    not recognize, no ambiguous abbreviation, no missing or surplus value, an
    integer text for every [int] option) and [--img] and [--img_dir] are not
    both given. Otherwise it ends in a usage error (one line on stderr, exit
    status 2) or, which needs [-h] among the arguments, in the help (exit
    status 0). *)
Theorem parse_args_succeeds_iff (argv : list arg) :
  if well_formed argv && negb (gives_img argv && gives_img_dir argv)
  then exists FLAGS, parse_args (F := F) argv = ret FLAGS
  else (exists message, parse_args (F := F) argv = parser_error message) \/
       (gives_help argv = true /\ parse_args (F := F) argv = help_exit).
Proof.
  destruct (well_formed argv && negb (gives_img argv && gives_img_dir argv)) eqn:Hc.
  - apply andb_prop in Hc as [Hv Hb]. apply negb_true_iff in Hb.
    destruct (consume_args_succeeds (F := F) argv defaults false false [] Hv Hb)
      as [FLAGS Hp].
    exists FLAGS. apply parse_args_ret. split; [|exact Hp].
    now apply well_formed_no_ambiguous.
  - destruct (parse_args_cases (F := F) argv) as [[FLAGS Hp]|Hother]; [|exact Hother].
    apply parse_args_ret_facts in Hp as (_ & _ & Hb & _ & Hv).
    rewrite Hv, Hb in Hc. discriminate Hc.
Qed.

(** X2. In the namespace [parse_args] returns, [img] is set exactly when
    [--img] was given and [img_dir] exactly when [--img_dir] was given, and
    never both: the run has at most one image source. *)
Theorem parse_args_image_source (argv : list arg) (FLAGS : Namespace) :
  parse_args (F := F) argv = ret FLAGS ->
  is_some (img FLAGS) = gives_img argv /\
  is_some (img_dir FLAGS) = gives_img_dir argv /\
  is_some (img FLAGS) && is_some (img_dir FLAGS) = false.
Proof.
  intros Hp. apply parse_args_ret_facts in Hp as (Hi & Hd & Hnot & _).
  rewrite Hi, Hd. auto.
Qed.

(** An option that writes another attribute leaves this one as it was. *)
Lemma take_action_other (a b : arg) (ns ns' : Namespace) (si sd si' sd' : bool) :
  take_action (F := F) ns si sd b = ret (ns', si', sd') ->
  same_dest a b = false ->
  same_attribute a ns' ns.
Proof.
  intros Hb Hab. destruct ns.
  destruct b as [| | [?|] | [?|] | | | | | | | | | | | |]; cbn [take_action] in Hb;
    try (now apply parser_error_not_ret in Hb);
    try (now apply help_exit_not_ret in Hb);
    try (destruct sd; [now apply parser_error_not_ret in Hb|]);
    try (destruct si; [now apply parser_error_not_ret in Hb|]);
    inversion Hb; subst; destruct a; try discriminate Hab; reflexivity.
Qed.

(** A declared option that is taken is in the namespace afterwards. *)
Lemma take_action_holds (a : arg) (ns ns' : Namespace) (si sd si' sd' : bool) :
  take_action (F := F) ns si sd a = ret (ns', si', sd') ->
  unrecognized [a] = [] ->
  holds a ns'.
Proof.
  intros Ha Hu. destruct ns.
  destruct a as [| | [?|] | [?|] | | | | | | | | | | | |]; cbn [take_action] in Ha;
    try (now apply parser_error_not_ret in Ha);
    try (now apply help_exit_not_ret in Ha);
    try discriminate Hu;
    try (destruct sd; [now apply parser_error_not_ret in Ha|]);
    try (destruct si; [now apply parser_error_not_ret in Ha|]);
    inversion Ha; subst; reflexivity.
Qed.

Lemma same_attribute_trans (a : arg) (n1 n2 n3 : Namespace) :
  same_attribute a n1 n2 -> same_attribute a n2 n3 -> same_attribute a n1 n3.
Proof. destruct a; cbn; congruence. Qed.

Lemma holds_same_attribute (a : arg) (ns ns' : Namespace) :
  holds a ns -> same_attribute a ns' ns -> holds a ns'.
Proof. destruct a; cbn; congruence. Qed.

Lemma consume_args_other (a : arg) (argv : list arg) (ns FLAGS : Namespace) (si sd : bool)
    (extras extras' : list string) :
  consume_args (F := F) argv ns si sd extras = ret (FLAGS, extras') ->
  forallb (fun b => negb (same_dest a b)) argv = true ->
  same_attribute a FLAGS ns.
Proof.
  revert ns si sd extras. induction argv as [|b rest IH]; intros ns si sd extras Hp Hall.
  - cbn in Hp. inversion Hp. destruct a; reflexivity.
  - cbn [consume_args] in Hp. apply bind_eq_ret in Hp as ([[ns' si'] sd'] & Hb & Hp).
    cbn in Hall. apply andb_prop in Hall as [Hab Hall].
    apply negb_true_iff in Hab.
    eapply same_attribute_trans; [eapply IH; eassumption|].
    eapply take_action_other; eassumption.
Qed.

Lemma unrecognized_app (pre post : list arg) :
  unrecognized (pre ++ post) = unrecognized pre ++ unrecognized post.
Proof. apply flat_map_app. Qed.

(** X3. An option counts at its last occurrence: when the parse of
    [pre ++ a :: post] succeeds and nothing in [post] writes the attribute
    that [a] writes, the namespace holds what [a] stores. *)
Theorem parse_args_last_wins (a : arg) (pre post : list arg) (FLAGS : Namespace) :
  parse_args (F := F) (pre ++ a :: post) = ret FLAGS ->
  forallb (fun b => negb (same_dest a b)) post = true ->
  holds a FLAGS.
Proof.
  intros Hp Hall.
  assert (Hu : unrecognized [a] = []).
  { pose proof (parse_args_ret_facts _ _ Hp) as (_ & _ & _ & Hu & _).
    rewrite unrecognized_app in Hu. apply app_eq_nil in Hu as [_ Hu].
    change (a :: post) with ([a] ++ post) in Hu. rewrite unrecognized_app in Hu.
    now apply app_eq_nil in Hu as [Hu _]. }
  apply parse_args_ret in Hp as [_ Hp].
  revert Hp. generalize defaults. generalize false at 1. generalize false.
  generalize (@nil string) at 1.
  induction pre as [|b pre IH]; intros extras sd si ns Hp.
  - cbn [app consume_args] in Hp.
    apply bind_eq_ret in Hp as ([[ns' si'] sd'] & Ha & Hp).
    eapply holds_same_attribute; [eapply take_action_holds; eassumption|].
    eapply consume_args_other; eassumption.
  - cbn [app consume_args] in Hp.
    apply bind_eq_ret in Hp as ([[ns' si'] sd'] & Hb & Hp).
    eapply IH; eassumption.
Qed.

(** X4. An attribute that no option of the invocation writes has its
    default in the namespace [parse_args] returns (the defaults of lines
    34-57: localhost:8001, batch size 1, -1 iterations, dali_backend, INPUT,
    OUTPUT, no flag set, no image path). *)
Theorem parse_args_keeps_defaults (a : arg) (argv : list arg) (FLAGS : Namespace) :
  parse_args (F := F) argv = ret FLAGS ->
  forallb (fun b => negb (same_dest a b)) argv = true ->
  same_attribute a FLAGS defaults.
Proof.
  intros Hp Hall. apply parse_args_ret in Hp as [_ Hp].
  eapply consume_args_other; eassumption.
Qed.

End ParseArgsMore.

Example parse_args_last_wins_demo :
  parse_args (F := unit) [Opt_model_name "a"; Opt_img_dir "images"; Opt_model_name "b"]
  = ret (mkNamespace false "localhost:8001" 1 (-1) "b" "INPUT" "OUTPUT" false false
                     None (Some "images")).
Proof. reflexivity. Qed.

Lemma parse_args_last_wins_witness :
  holds (Opt_model_name "b")
        (mkNamespace false "localhost:8001" 1 (-1) "b" "INPUT" "OUTPUT" false false
                     None (Some "images")).
Proof.
  apply (parse_args_last_wins (F := unit) (Opt_model_name "b")
           [Opt_model_name "a"] [Opt_img_dir "images"]); reflexivity.
Defined.

Lemma parse_args_keeps_defaults_witness :
  same_attribute (Opt_url "")
        (mkNamespace false "localhost:8001" 1 (-1) "b" "INPUT" "OUTPUT" false false
                     None (Some "images"))
        defaults.
Proof.
  apply (parse_args_keeps_defaults (F := unit) (Opt_url "")
           [Opt_model_name "a"; Opt_model_name "b"; Opt_img_dir "images"]); reflexivity.
Defined.

Lemma parse_args_image_source_witness :
  is_some (img (mkNamespace false "localhost:8001" 1 (-1) "dali_backend" "INPUT" "OUTPUT"
                            false false None (Some "images")))
    = gives_img [Opt_img_dir "images"] /\
  is_some (img_dir (mkNamespace false "localhost:8001" 1 (-1) "dali_backend" "INPUT"
                                "OUTPUT" false false None (Some "images")))
    = gives_img_dir [Opt_img_dir "images"] /\
  is_some (img (mkNamespace false "localhost:8001" 1 (-1) "dali_backend" "INPUT" "OUTPUT"
                            false false None (Some "images")))
  && is_some (img_dir (mkNamespace false "localhost:8001" 1 (-1) "dali_backend" "INPUT"
                                   "OUTPUT" false false None (Some "images"))) = false.
Proof.
  apply (parse_args_image_source (F := unit) [Opt_img_dir "images"]). reflexivity.
Defined.

(** ** More on [array_from_list] *)

Section ArrayFromListMore.
Context {F : Type}.

Lemma padded_full (m : nat) (arr : list byte) : length arr = m -> padded m arr = arr.
Proof. intros <-. unfold padded. rewrite Nat.sub_diag. apply app_nil_r. Qed.

Lemma list_max_constant (m : nat) (xs : list nat) :
  Forall (fun x => x = m) xs -> xs <> [] -> list_max xs = m.
Proof.
  induction 1 as [|x xs -> _ IH]; intros Hne; [congruence|].
  cbn. destruct xs as [|y ys]; [cbn; lia|].
  unfold list_max in IH. rewrite IH by discriminate. lia.
Qed.

Lemma array_from_list_same_length (a : list byte) (rest : list (list byte)) :
  Forall (fun arr => length arr = length a) rest ->
  array_from_list (F := F) (a :: rest) = ret (a :: rest).
Proof.
  intros Hlen. rewrite array_from_list_eq.
  assert (Hall : Forall (fun arr => length arr = length a) (a :: rest))
    by (constructor; [reflexivity | exact Hlen]).
  assert (Hmax : list_max (map (@length byte) (a :: rest)) = length a).
  { apply list_max_constant; [|discriminate].
    apply Forall_map. exact Hall. }
  rewrite Hmax. f_equal.
  clear Hmax Hlen. induction Hall as [|arr l Harr _ IH]; [reflexivity|].
  cbn [map]. now rewrite padded_full, IH.
Qed.

(** X5. Buffers of one common length are stacked as they are: nothing is
    padded, no row changes. *)
Theorem array_from_list_equal_lengths (a : list byte) (rest : list (list byte)) :
  Forall (fun arr => length arr = length a) rest ->
  array_from_list (F := F) (a :: rest) = ret (a :: rest).
Proof. apply array_from_list_same_length. Qed.

(** X6. [array_from_list] is idempotent: applied to a tensor it returned,
    it returns that tensor again. *)
Theorem array_from_list_idempotent (arrays tensor : list (list byte)) :
  array_from_list (F := F) arrays = ret tensor ->
  array_from_list (F := F) tensor = ret tensor.
Proof.
  destruct arrays as [|a rest]; [discriminate|].
  rewrite array_from_list_eq. intros H. inversion H as [Ht]. clear H.
  set (m := list_max (map (@length byte) (a :: rest))).
  assert (Hle : forall arr, In arr (a :: rest) -> length arr <= m)
    by (intros; now apply length_le_list_max).
  cbn [map]. apply array_from_list_same_length.
  apply Forall_forall. intros row Hin. apply in_map_iff in Hin as (arr & <- & Hin).
  rewrite !padded_length; auto using in_eq, in_cons.
Qed.

End ArrayFromListMore.

Lemma array_from_list_equal_lengths_witness :
  array_from_list (F := unit) [[x01; x02]; [x03; x04]; [x05; x06]]
  = ret [[x01; x02]; [x03; x04]; [x05; x06]].
Proof.
  apply (array_from_list_equal_lengths [x01; x02] [[x03; x04]; [x05; x06]]).
  repeat constructor.
Defined.

Lemma array_from_list_idempotent_witness :
  array_from_list (F := unit) [[x01; x02; x03]; [x00; x00; x00]; [xff; x00; x00]]
  = ret [[x01; x02; x03]; [x00; x00; x00]; [xff; x00; x00]].
Proof.
  apply (array_from_list_idempotent [[x01; x02; x03]; []; [xff]]). reflexivity.
Defined.

(** ** More on image acquisition *)

Section LoadingMore.
Context {F R : Type}.
Variable w : World F R.

(** Past the assertion of line 75. *)
Lemma load_images_capped (d : option string) (n : Z) :
  cap_ok n = true ->
  load_images w d n
  = (listing <- os_listdir w d ;;
     is_file <- os_path_isfile w d ;;
     img_paths <- (if is_file then ret [d] else path_generator w d listing) ;;
     map_py (load_image w)
            (if (0 <? n)%Z then firstn (Z.to_nat n) img_paths else img_paths)).
Proof.
  unfold cap_ok. intros Hn. unfold load_images. rewrite Hn. cbn [assert_].
  now rewrite bind_ret_l.
Qed.

(** A cap that is neither positive nor -1 is refused by the assertion of
    line 75 before the filesystem is touched. *)
Lemma load_images_bad_cap (d : option string) (n : Z) :
  cap_ok n = false ->
  load_images w d n = raise AssertionError "".
Proof.
  unfold cap_ok. intros Hn. unfold load_images. rewrite Hn. reflexivity.
Qed.

Lemma load_images_on_file (p : string) (n : Z) (content : list byte) :
  cap_ok n = true ->
  fs w p = RegularFile content ->
  load_images w (Some p) n = ([EvListdir (Some p)], Raise (Exc NotADirectoryError p)).
Proof.
  intros Hn Hp. rewrite (load_images_capped _ _ Hn), os_listdir_eq. cbn. now rewrite Hp.
Qed.

Lemma load_images_on_nothing (p : string) (n : Z) :
  cap_ok n = true ->
  fs w p = Absent ->
  load_images w (Some p) n = ([EvListdir (Some p)], Raise (Exc FileNotFoundError p)).
Proof.
  intros Hn Hp. rewrite (load_images_capped _ _ Hn), os_listdir_eq. cbn. now rewrite Hp.
Qed.

(** X7. [load_images] reads directories only: given the path of a regular
    file it ends in [NotADirectoryError], given a path that names nothing in
    [FileNotFoundError], in both cases from the [os.listdir] of line 79 and
    without opening anything. *)
Theorem load_images_needs_directory (p : string) (n : Z) :
  cap_ok n = true ->
  (forall content, fs w p = RegularFile content ->
     load_images w (Some p) n = ([EvListdir (Some p)], Raise (Exc NotADirectoryError p))) /\
  (fs w p = Absent ->
     load_images w (Some p) n = ([EvListdir (Some p)], Raise (Exc FileNotFoundError p))).
Proof.
  intros Hn. split.
  - intros content. now apply load_images_on_file.
  - now apply load_images_on_nothing.
Qed.

(** X8. On a directory, with a cap [n] > 0 the loader returns the contents
    of the first [n] regular files of the listing, with -1 those of all of
    them; it opens exactly the files it returns, in that order. *)
Theorem load_images_directory_cap (d : string) (entries : list string) (n : Z) :
  fs w d = Directory entries ->
  cap_ok n = true ->
  let chosen := if (0 <? n)%Z then firstn (Z.to_nat n) (files_of w d entries)
                else files_of w d entries in
  result (load_images w (Some d) n) = Return (map (file_content w) chosen) /\
  filter is_open (trace (load_images w (Some d) n)) = map EvOpen chosen.
Proof.
  intros Hd Hn chosen.
  assert (Hreg : is_regular w d = false) by (unfold is_regular; now rewrite Hd).
  destruct (path_generator_result w d entries) as [Hres Hsil].
  rewrite (load_images_capped _ _ Hn), (os_listdir_directory w d entries Hd),
    os_path_isfile_eq, Hreg.
  rewrite !bind_return. cbv beta.
  destruct (path_generator w (Some d) entries) as [t o] eqn:E. simpl in Hres. subst o.
  rewrite !bind_return. cbv beta.
  replace (if (0 <? n)%Z
           then firstn (Z.to_nat n) (map Some (files_of w d entries))
           else map Some (files_of w d entries))
    with (map (@Some string) chosen)
    by (unfold chosen; destruct (0 <? n)%Z; [now rewrite firstn_map | reflexivity]).
  rewrite load_all.
  - unfold trace, result. cbn [fst snd]. split; [reflexivity|].
    pose proof (filter_silent is_open _ Hsil) as Ht. cbn [trace fst] in Ht.
    cbn [app filter is_open]. rewrite filter_app, Ht. apply filter_open_opens.
  - unfold chosen. destruct (0 <? n)%Z;
      [apply Forall_firstn_keeps|]; apply files_of_regular.
Qed.

(** X9. The single-image mode never loads its image: with [--img] naming a
    regular file and a server that can be reached, the run ends at line 79
    in [NotADirectoryError], before the file is opened and before any
    request is sent. *)
Theorem main_single_image_fails (argv : list arg) (FLAGS : Namespace) (p : string)
    (content : list byte) :
  parse_args (F := F) argv = ret FLAGS ->
  img FLAGS = Some p ->
  img_dir FLAGS = None ->
  channel_error w (url FLAGS) (verbose FLAGS) = None ->
  fs w p = RegularFile content ->
  main w argv
  = ([EvConnect (url FLAGS) (verbose FLAGS); EvPrint "Loading images";
      EvListdir (Some p)],
     Raise (Exc NotADirectoryError p)).
Proof.
  intros Hp Himg Hdir Hc Hfile.
  rewrite (main_to_loading w argv FLAGS Hp Hc). cbv zeta. rewrite Hdir, Himg.
  rewrite (load_images_on_file p 15 content eq_refl Hfile). reflexivity.
Qed.

(** X10. A directory without a regular file stops the run: nothing is
    loaded, [array_from_list] gets the empty list, and the run ends in the
    [ValueError] of line 113 without having sent a request. *)
Theorem main_no_image_files (argv : list arg) (FLAGS : Namespace) (d : string)
    (entries : list string) :
  parse_args (F := F) argv = ret FLAGS ->
  channel_error w (url FLAGS) (verbose FLAGS) = None ->
  match img_dir FLAGS with Some d' => Some d' | None => img FLAGS end = Some d ->
  fs w d = Directory entries ->
  files_of w d entries = [] ->
  result (main w argv) = Raise (Exc ValueError "max() arg is an empty sequence") /\
  images_read (trace (main w argv)) = 0 /\
  silent is_request (main w argv).
Proof.
  intros Hp Hc Hsrc Hd Hfiles.
  rewrite (main_to_loading w argv FLAGS Hp Hc). cbv zeta. rewrite Hsrc.
  destruct (load_images_directory w d entries Hd) as [Hres Hopen].
  rewrite Hfiles in Hres, Hopen. cbn in Hres, Hopen.
  assert (Hsil : silent is_request (load_images w (Some d) 15))
    by (apply silent_load_images; reflexivity).
  destruct (load_images w (Some d) 15) as [t o]. cbn in Hres, Hopen. subst o.
  rewrite bind_return. cbv beta.
  change (array_from_list (F := F) (T := list byte) [])
    with (raise (F := F) (A := list (list byte)) ValueError
                "max() arg is an empty sequence").
  unfold images_read, silent, trace, result. cbn [fst snd bind raise].
  rewrite !app_nil_r. split; [reflexivity|]. split.
  - cbn [app filter is_open]. now rewrite Hopen.
  - repeat constructor. exact Hsil.
Qed.

End LoadingMore.

Example load_images_bad_cap_demo :
  load_images (demo_world true 1) (Some "images") 0 = raise AssertionError "".
Proof. reflexivity. Qed.

Lemma load_images_needs_directory_witness :
  load_images (demo_world true 1) (Some "images/a.jpg") 15
    = ([EvListdir (Some "images/a.jpg")], Raise (Exc NotADirectoryError "images/a.jpg")) /\
  load_images (demo_world true 1) (Some "nowhere") (-1)
    = ([EvListdir (Some "nowhere")], Raise (Exc FileNotFoundError "nowhere")).
Proof.
  split.
  - apply (proj1 (load_images_needs_directory (demo_world true 1) "images/a.jpg" 15 eq_refl)
             [x01; x02; x03]).
    reflexivity.
  - apply (proj2 (load_images_needs_directory (demo_world true 1) "nowhere" (-1) eq_refl)).
    reflexivity.
Defined.

Lemma load_images_directory_cap_witness :
  let w := demo_world true 1 in
  let chosen := if (0 <? 1)%Z
                then firstn (Z.to_nat 1) (files_of w "images" ["a.jpg"; "sub"; "b.jpg"])
                else files_of w "images" ["a.jpg"; "sub"; "b.jpg"] in
  result (load_images w (Some "images") 1) = Return (map (file_content w) chosen) /\
  filter is_open (trace (load_images w (Some "images") 1)) = map EvOpen chosen.
Proof.
  apply (load_images_directory_cap (demo_world true 1) "images" ["a.jpg"; "sub"; "b.jpg"] 1);
    reflexivity.
Defined.

(** With no cap every regular file of the directory is read. *)
Example load_images_uncapped_demo :
  result (load_images (demo_world true 1) (Some "images") (-1))
  = Return [[x01; x02; x03]; [xff]].
Proof. reflexivity. Qed.

Lemma main_single_image_fails_witness :
  main (demo_world true 1) [Opt_img "images/a.jpg"]
  = ([EvConnect "localhost:8001" false; EvPrint "Loading images";
      EvListdir (Some "images/a.jpg")],
     Raise (Exc NotADirectoryError "images/a.jpg")).
Proof.
  apply (main_single_image_fails (demo_world true 1) [Opt_img "images/a.jpg"]
           (mkNamespace false "localhost:8001" 1 (-1) "dali_backend" "INPUT" "OUTPUT"
                        false false (Some "images/a.jpg") None)
           "images/a.jpg" [x01; x02; x03]); reflexivity.
Defined.

Lemma main_no_image_files_witness :
  result (main (demo_world true 1) [Opt_img_dir "images/sub"])
    = Raise (Exc ValueError "max() arg is an empty sequence") /\
  images_read (trace (main (demo_world true 1) [Opt_img_dir "images/sub"])) = 0 /\
  silent is_request (main (demo_world true 1) [Opt_img_dir "images/sub"]).
Proof.
  apply (main_no_image_files (demo_world true 1) [Opt_img_dir "images/sub"]
           (mkNamespace false "localhost:8001" 1 (-1) "dali_backend" "INPUT" "OUTPUT"
                        false false None (Some "images/sub"))
           "images/sub" []); reflexivity.
Defined.

(** ** The inference loop *)

Section InferenceLoop.
Context {F R : Type}.
Variable w : World F R.

Lemma argmax_from_bound (ltb : R -> R -> bool) (best_i : nat) (best : R) (i : nat)
    (xs : list R) :
  best_i < i -> argmax_from ltb best_i best i xs < i + length xs.
Proof.
  revert best_i best i. induction xs as [|x xs IH]; intros best_i best i Hlt; cbn.
  - lia.
  - destruct (ltb best x).
    + specialize (IH i x (S i) ltac:(lia)). lia.
    + specialize (IH best_i best (S i) ltac:(lia)). lia.
Qed.

Lemma np_argmax_bound (ltb : R -> R -> bool) (row : list R) (m : nat) :
  np_argmax (F := F) ltb row = ret m -> m < length row.
Proof.
  destruct row as [|x xs]; [discriminate|]. cbn. intros H. inversion H.
  pose proof (argmax_from_bound ltb 0 x 1 xs ltac:(lia)). lia.
Qed.

Lemma argmax_rows (ltb : R -> R -> bool) (rows : list (list R)) (maxs : list nat) :
  map_py (F := F) (np_argmax ltb) rows = ret maxs ->
  Forall2 (fun row m => m < length row) rows maxs.
Proof.
  revert maxs. induction rows as [|row rows IH]; intros maxs H.
  - cbn in H. inversion H. constructor.
  - cbn [map_py] in H. apply bind_eq_ret in H as (m & Hm & H).
    apply bind_eq_ret in H as (ms & Hms & H). inversion H. subst.
    constructor; [now apply (np_argmax_bound ltb) | now apply IH].
Qed.

Lemma batch_kind (FLAGS : Namespace) (latencies lat' : list R) (batch : list (list byte))
    (data : batch_data F) :
  result (if preprocess FLAGS
          then
            pl <- fold_py (fun pl img =>
                     let '(preprocessed_samples, latency) := pl in
                     r <- preprocess_image w img ;;
                     let '(prep, lat) := r in
                     ret (preprocessed_samples ++ [prep], float_add w latency lat))
                   batch ([], float_zero w) ;;
            let '(preprocessed_samples, latency) := pl in
            stacked <- array_from_list (H := float_nd w) preprocessed_samples ;;
            ret (FP32_data stacked, latencies ++ [latency])
          else ret (UINT8_data batch, latencies))
    = Return (data, lat') ->
  match data with
  | UINT8_data _ => preprocess FLAGS = false
  | FP32_data _ => preprocess FLAGS = true
  end.
Proof.
  destruct (preprocess FLAGS); intros H.
  - apply result_bind_return in H as (? & [samples latency] & _ & H & _).
    apply result_bind_return in H as (? & stacked & _ & H & _).
    inversion H. reflexivity.
  - inversion H. reflexivity.
Qed.

Lemma string_eqb_refl (s : string) : String.eqb s s = true.
Proof. apply String.eqb_eq. reflexivity. Qed.

Lemma np_argmax_label (ltb : R -> R -> bool) (row : list R) :
  row <> [] -> np_argmax (F := F) ltb row = ret (label ltb row).
Proof. destruct row; [congruence | reflexivity]. Qed.

Lemma label_bound (ltb : R -> R -> bool) (row : list R) :
  row <> [] -> label ltb row < length row.
Proof.
  destruct row as [|x xs]; [congruence|]. intros _. cbn.
  pose proof (argmax_from_bound ltb 0 x 1 xs ltac:(lia)). lia.
Qed.

Lemma np_argmax_axis1_labels (ltb : R -> R -> bool) (rows : list (list R)) :
  Forall (fun row => row <> []) rows ->
  np_argmax_axis1 (F := F) ltb (Some rows) = ret (map (label ltb) rows).
Proof.
  intros Hrows. cbn [np_argmax_axis1]. apply map_py_pure.
  intros row Hin. apply np_argmax_label. rewrite Forall_forall in Hrows. now apply Hrows.
Qed.

Lemma print_eq (args : list string) :
  print (F := F) args = ([EvPrint (String.concat " " args)], Return tt).
Proof. reflexivity. Qed.

(** The per-sample report over rows without an empty one: one line each. *)
Lemma report_lines (done todo : list (list R)) :
  Forall (fun row => row <> []) todo ->
  for_each (seq (length done) (length todo)) (fun i =>
    let m := nth i (map (label (float_ltb w)) (done ++ todo)) 0 in
    x <- index2 (F := F) (Some (done ++ todo)) i m ;;
    print ["Sample "; str_nat i; " - label: "; str_nat m; " ~ "; str_float w x])
  = (flat_map (fun ir => sample_line w (fst ir) (snd ir))
              (combine (seq (length done) (length todo)) todo),
     Return tt).
Proof.
  revert done. induction todo as [|row todo IH]; intros done Hrows; [reflexivity|].
  inversion Hrows as [|? ? Hrow Hrest]. subst.
  cbn [length seq for_each combine flat_map fst snd]. cbv zeta.
  assert (Hm : nth (length done) (map (label (float_ltb w)) (done ++ row :: todo)) 0
               = label (float_ltb w) row).
  { rewrite map_app, app_nth2 by (rewrite length_map; lia).
    rewrite length_map, Nat.sub_diag. reflexivity. }
  rewrite Hm.
  destruct (nth_error row (label (float_ltb w) row)) as [x|] eqn:E.
  - assert (Hidx : index2 (F := F) (Some (done ++ row :: todo)) (length done)
                          (label (float_ltb w) row) = ret x).
    { unfold index2. rewrite nth_error_app2 by lia.
      rewrite Nat.sub_diag. cbn [nth_error]. now rewrite E. }
    rewrite Hidx, bind_ret_l, print_eq, bind_return.
    specialize (IH (done ++ [row]) Hrest).
    rewrite length_app, <- app_assoc in IH. cbn [length app] in IH.
    rewrite Nat.add_1_r in IH. rewrite IH.
    unfold sample_line. rewrite E. reflexivity.
  - apply nth_error_None in E. pose proof (label_bound (float_ltb w) row Hrow). lia.
Qed.

Lemma sample_lines_printed (rows : list (nat * list R)) :
  forallb is_print (flat_map (fun ir => sample_line w (fst ir) (snd ir)) rows) = true.
Proof.
  induction rows as [|[i row] rows IH]; [reflexivity|].
  cbn [flat_map fst snd]. rewrite forallb_app, IH, andb_true_r.
  unfold sample_line. now destruct (nth_error row _).
Qed.

Lemma triton_infer_eq (k : nat) (m : string) (inputs : list (InferInput F))
    (outputs : list InferRequestedOutput) :
  triton_infer w k m inputs outputs
  = ([EvInfer m inputs outputs],
     match server_infer w k m inputs outputs with
     | inl e => Raise e
     | inr r => Return r
     end).
Proof. unfold triton_infer. now destruct (server_infer w k m inputs outputs). Qed.

(** What [infer_batch] does before it sends its request produces no event. *)
Lemma no_event_of_silent {A} (m : py F A) :
  silent (fun _ => true) m -> trace m = [].
Proof.
  unfold silent. destruct (trace m) as [|e t]; [reflexivity|].
  intros H. inversion H. discriminate.
Qed.

(** X11. A pass of the loop body whose request the server answers with an
    output of non-empty rows returns: [np.argmax(output0_data, axis=1)]
    gives one label per row, [output0_data[i, maxs[i]]] (line 187) is in
    range for every sample, and with [--statistics] the pass prints one
    line per sample, with its label and the score under that label; without
    it, nothing. *)
Theorem sample_labels_in_range (FLAGS : Namespace) (m : string) (latencies : list R)
    (k : nat) (batch : list (list byte)) (inputs : list (InferInput F))
    (outputs : list InferRequestedOutput) (results : InferResult R)
    (rows : list (list R)) :
  In (EvInfer m inputs outputs) (trace (infer_batch w FLAGS m latencies (k, batch))) ->
  server_infer w k m inputs outputs = inr results ->
  as_numpy results (output_name FLAGS) = Some rows ->
  Forall (fun row => row <> []) rows ->
  (exists latencies',
     result (infer_batch w FLAGS m latencies (k, batch)) = Return latencies') /\
  filter is_print (trace (infer_batch w FLAGS m latencies (k, batch)))
  = if statistics FLAGS then sample_lines w rows else [].
Proof.
  intros Hin Hsrv Hnp Hrows. unfold infer_batch in *.
  match type of Hin with In _ (trace (bind ?s _)) =>
    assert (Hsil : silent (fun _ => true) s);
    [|apply no_event_of_silent in Hsil; destruct s as [t1 o1] eqn:Est]
  end.
  { destruct (preprocess FLAGS); [|apply silent_ret].
    cbv zeta. apply silent_bind.
    - apply silent_fold_py. intros [samples latency] img.
      apply silent_bind; [apply silent_preprocess_image|]. intros [prep lat].
      apply silent_ret.
    - intros [samples latency]. apply silent_bind; [|intros; apply silent_ret].
      apply silent_array_from_list. intros. apply silent_pad_float. }
  cbn [trace fst] in Hsil. subst t1.
  destruct o1 as [[data lat1]|e|c]; [|destruct Hin..].
  assert (Hkind : match data with
                  | UINT8_data _ => preprocess FLAGS = false
                  | FP32_data _ => preprocess FLAGS = true
                  end).
  { apply (batch_kind FLAGS latencies lat1 batch data). now rewrite Est. }
  clear Est.
  change (@nil (event F), Return (data, lat1)) with (ret (F := F) (data, lat1)) in *.
  rewrite bind_ret_l in Hin |- *.
  cbn [generate_io app] in Hin |- *. unfold set_data_from_numpy in Hin |- *.
  cbn [in_datatype in_shape in_name] in Hin |- *.
  assert (Hdtype : (if negb (preprocess FLAGS) then "UINT8" else "FP32")
                   = np_to_triton_dtype data)
    by (destruct data; rewrite Hkind; reflexivity).
  rewrite Hdtype, string_eqb_refl, shape_eqb_refl in Hin |- *.
  cbn [negb] in Hin |- *. rewrite bind_ret_l, triton_infer_eq in Hin |- *.
  assert (Hreq : inputs = [mkInferInput (input_name FLAGS) (batch_shape w data)
                                        (np_to_triton_dtype data) (Some data)] /\
                 outputs = [mkInferRequestedOutput (output_name FLAGS)]).
  { destruct (server_infer w k m _ _) as [e|r].
    - unfold bind in Hin. cbn in Hin. destruct Hin as [H|[]]. now inversion H.
    - rewrite bind_return in Hin. cbn [trace fst app] in Hin.
      destruct Hin as [H|H]; [now inversion H|].
      match type of H with In _ (trace ?rest) =>
        assert (Hs : silent is_infer rest)
      end.
      { apply silent_bind; [apply silent_np_argmax_axis1; reflexivity|].
        intros maxs. apply silent_bind; [|intros; apply silent_ret].
        destruct (statistics FLAGS); [|apply silent_ret].
        apply silent_for_each. intros i.
        apply silent_bind; [apply silent_index2; reflexivity|]. intros x.
        apply silent_print. reflexivity. }
      unfold silent in Hs. rewrite Forall_forall in Hs.
      specialize (Hs _ H). discriminate Hs. }
  destruct Hreq as [-> ->]. rewrite Hsrv, bind_return. cbv beta. rewrite Hnp.
  rewrite (np_argmax_axis1_labels _ rows Hrows), bind_ret_l, length_map.
  destruct (statistics FLAGS).
  - pose proof (report_lines [] rows Hrows) as Hl. cbn [length app] in Hl.
    rewrite Hl, bind_return.
    unfold ret, trace, result. cbn [fst snd app filter is_print].
    split; [now exists lat1|].
    rewrite app_nil_r. apply forallb_filter_id, sample_lines_printed.
  - rewrite !bind_ret_l. split; [now exists lat1 | reflexivity].
Qed.


Lemma preprocess_loop_fails (img : list byte) (batch : list (list byte)) (s : list F * R) :
  In img batch ->
  decode_resize_normalize w img = None ->
  fold_py (fun pl x =>
             let '(preprocessed_samples, latency) := pl in
             r <- preprocess_image w x ;;
             let '(prep, lat) := r in
             ret (preprocessed_samples ++ [prep], float_add w latency lat))
          batch s
  = raise cv2_error "(-215:Assertion failed) !ssize.empty() in function 'resize'".
Proof.
  intros Hin Hnone. revert s. induction batch as [|x rest IH]; intros [samples latency].
  - destruct Hin.
  - cbn [fold_py]. unfold preprocess_image at 1.
    destruct (decode_resize_normalize w x) as [t|] eqn:E.
    + rewrite !bind_ret_l. apply IH. destruct Hin as [->|Hin]; [congruence | exact Hin].
    + reflexivity.
Qed.

(** X12. With [--preprocess], a batch that holds an image cv2 cannot decode
    ends the loop body in [cv2.error] before anything is sent: no request,
    no output. *)
Theorem infer_batch_undecodable (FLAGS : Namespace) (m : string) (latencies : list R)
    (k : nat) (batch : list (list byte)) (img : list byte) :
  preprocess FLAGS = true ->
  In img batch ->
  decode_resize_normalize w img = None ->
  infer_batch w FLAGS m latencies (k, batch)
  = raise cv2_error "(-215:Assertion failed) !ssize.empty() in function 'resize'".
Proof.
  intros Hpre Hin Hnone. unfold infer_batch. rewrite Hpre. cbv zeta.
  rewrite (preprocess_loop_fails img batch _ Hin Hnone). reflexivity.
Qed.

(** What one pass of the loop body does to [latencies]. *)
Lemma infer_batch_latencies (FLAGS : Namespace) (m : string) (latencies latencies' : list R)
    (kb : nat * list (list byte)) (t : list (event F)) :
  infer_batch w FLAGS m latencies kb = (t, Return latencies') ->
  if preprocess FLAGS then exists latency, latencies' = latencies ++ [latency]
  else latencies' = latencies.
Proof.
  unfold infer_batch. destruct kb as [k batch]. intros H.
  apply bind_eq_return in H as (t1 & [data lat1] & t2 & Hst & H & _).
  assert (Hlat : if preprocess FLAGS then exists latency, lat1 = latencies ++ [latency]
                 else lat1 = latencies).
  { destruct (preprocess FLAGS).
    - cbv zeta in Hst.
      apply bind_eq_return in Hst as (? & [samples latency] & ? & _ & Hst & _).
      apply bind_eq_return in Hst as (? & stacked & ? & _ & Hst & _).
      inversion Hst. now exists latency.
    - inversion Hst. reflexivity. }
  clear Hst.
  destruct (generate_io _ _ _ _) as [inputs outputs].
  apply bind_eq_return in H as (? & inputs' & ? & _ & H & _).
  apply bind_eq_return in H as (? & results & ? & _ & H & _).
  apply bind_eq_return in H as (? & maxs & ? & _ & H & _).
  apply bind_eq_return in H as (? & u & ? & _ & H & _).
  inversion H. subst. exact Hlat.
Qed.

(** X13. The loop measures one latency per batch with [--preprocess] and
    none without it: after a loop over [batches] that completes, the list of
    latencies has grown by the number of batches, or is unchanged. *)
Theorem latencies_one_per_batch (FLAGS : Namespace) (m : string)
    (batches : list (nat * list (list byte))) (latencies latencies' : list R)
    (t : list (event F)) :
  fold_py (infer_batch w FLAGS m) batches latencies = (t, Return latencies') ->
  if preprocess FLAGS then length latencies' = length latencies + length batches
  else latencies' = latencies.
Proof.
  revert latencies t. induction batches as [|kb rest IH]; intros latencies t H.
  - cbn in H. inversion H. destruct (preprocess FLAGS); [cbn; lia | reflexivity].
  - cbn [fold_py] in H.
    apply bind_eq_return in H as (t1 & lat1 & t2 & Hstep & H & _).
    apply infer_batch_latencies in Hstep. apply IH in H.
    destruct (preprocess FLAGS).
    + destruct Hstep as [latency ->]. rewrite length_app in H. cbn in *. lia.
    + congruence.
Qed.

End InferenceLoop.

Lemma sample_labels_in_range_witness :
  let FLAGS := mkNamespace false "localhost:8001" 1 (-1) "dali_backend" "INPUT" "OUTPUT"
                           false true None (Some "images") in
  let batch := [[x01; x02; x03]; [xff; x00; x00]] in
  (exists latencies',
     result (infer_batch (demo_world true 1) FLAGS "dali_backend" [] (0, batch))
     = Return latencies') /\
  filter is_print (trace (infer_batch (demo_world true 1) FLAGS "dali_backend" [] (0, batch)))
  = [EvPrint "Sample  0  - label:  1  ~  score"; EvPrint "Sample  1  - label:  1  ~  score"].
Proof.
  intros FLAGS batch.
  apply (sample_labels_in_range (demo_world true 1) FLAGS "dali_backend" [] 0 batch
           [mkInferInput "INPUT" [2; 3] "UINT8" (Some (UINT8_data batch))]
           [mkInferRequestedOutput "OUTPUT"]
           (mkInferResult (fun name => if (name =? "OUTPUT")%string
                                       then Some [[1; 5; 2]; [1; 5; 2]]%Z else None))
           [[1; 5; 2]; [1; 5; 2]]%Z).
  - left. reflexivity.
  - reflexivity.
  - reflexivity.
  - repeat constructor; discriminate.
Defined.

Lemma infer_batch_undecodable_witness :
  infer_batch (demo_world true 1)
    (mkNamespace false "localhost:8001" 1 (-1) "dali_backend" "INPUT" "OUTPUT"
                 true false None (Some "images"))
    "dali_backend" [] (0, [[x01; x02; x03]; [xff; x00; x00]])
  = raise cv2_error "(-215:Assertion failed) !ssize.empty() in function 'resize'".
Proof.
  apply (infer_batch_undecodable (demo_world true 1) _ _ _ _ _ [xff; x00; x00]).
  - reflexivity.
  - right. left. reflexivity.
  - reflexivity.
Defined.

Lemma latencies_one_per_batch_witness :
  let FLAGS := mkNamespace false "localhost:8001" 1 (-1) "dali_backend" "INPUT" "OUTPUT"
                           true false None (Some "images") in
  let batches := [(0, [[x01; x02; x03]]); (1, [[xff]])] in
  result (fold_py (infer_batch cv2_world FLAGS "dali_backend") batches [])
    = Return [7; 7]%Z /\
  if preprocess FLAGS
  then length [7; 7]%Z = length (@nil Z) + length batches
  else [7; 7]%Z = [].
Proof.
  intros FLAGS batches. split; [reflexivity|].
  apply (latencies_one_per_batch cv2_world FLAGS "dali_backend" batches [] [7; 7]%Z
           (trace (fold_py (infer_batch cv2_world FLAGS "dali_backend") batches []))).
  reflexivity.
Defined.

(** ** What a run sends and how it ends *)

Section Requests.
Context {F R : Type}.
Variable w : World F R.






(** X15. A run ends normally only after the statistics query for "dali"
    was answered with a snapshot of exactly one model, and the last thing
    such a run does is to print "PASS: infer". *)
Theorem main_passes_after_one_model (argv : list arg) :
  result (main w argv) = Return tt ->
  exists pre s,
    trace (main w argv) = pre ++ [EvPrint "PASS: infer"] /\
    In (EvStatistics "dali") pre /\
    server_statistics w "dali" = inr s /\
    length (model_stats s) = 1.
Proof.
  intros H. unfold main in *.
  apply result_bind_return in H as (t1 & FLAGS & _ & H & ->).
  apply result_bind_return in H as (t2 & client & _ & H & ->).
  cbv zeta in H |- *.
  apply result_bind_return in H as (t3 & u3 & _ & H & ->).
  apply result_bind_return in H as (t4 & images & _ & H & ->).
  apply result_bind_return in H as (t5 & image_data & _ & H & ->).
  apply result_bind_return in H as (t6 & u6 & _ & H & ->).
  apply result_bind_return in H as (t7 & latencies & _ & H & ->).
  unfold report in *. rewrite (get_inference_statistics_eq w "dali") in *.
  destruct (server_statistics w "dali") as [e|s]; [discriminate H|].
  rewrite bind_return in *. cbv beta in *.
  destruct (length (model_stats s) =? 1)%nat eqn:Hn; [|discriminate H].
  apply Nat.eqb_eq in Hn. cbn [negb] in *.
  exists (t1 ++ t2 ++ t3 ++ t4 ++ t5 ++ t6 ++ t7 ++ [EvStatistics "dali"]
          ++ (if statistics FLAGS then [EvPrint (str_statistics w s)] else [])
          ++ (if preprocess FLAGS
              then [EvPrint (String.concat " " ["Latencies [ms]: "; str_mean_ms w latencies;
                                                str_array_ms w latencies])]
              else [])), s.
  split; [|split; [|split; [reflexivity | exact Hn]]].
  - cbn [trace fst]. rewrite <- !app_assoc. do 7 f_equal.
    destruct (statistics FLAGS), (preprocess FLAGS); reflexivity.
  - rewrite !in_app_iff. do 7 right. left. left. reflexivity.
Qed.

End Requests.


Lemma main_passes_after_one_model_witness :
  exists pre s,
    trace (main (demo_world true 1) [Opt_img_dir "images"]) = pre ++ [EvPrint "PASS: infer"] /\
    In (EvStatistics "dali") pre /\
    server_statistics (demo_world true 1) "dali" = inr s /\
    length (model_stats s) = 1.
Proof.
  apply (main_passes_after_one_model (demo_world true 1) [Opt_img_dir "images"]).
  reflexivity.
Defined.

(** ** Exit statuses *)

Section Exits.
Context {F R : Type}.
Variable Q : option Z -> Prop.

Lemma exits_ret {A} (a : A) : exits_only (F := F) Q (ret a).
Proof. intros c H. discriminate H. Qed.

Lemma exits_raise {A} c msg : exits_only (F := F) (A := A) Q (raise c msg).
Proof. intros c' H. discriminate H. Qed.

Lemma exits_raised {A} (t : list (event F)) e : exits_only (A := A) Q (t, Raise e).
Proof. intros c' H. discriminate H. Qed.

Lemma exits_emit e : exits_only (F := F) Q (emit e).
Proof. intros c H. discriminate H. Qed.

Lemma exits_sys_exit {A} c : Q c -> exits_only (F := F) (A := A) Q (sys_exit c).
Proof. intros Hc c' H. inversion H. subst. exact Hc. Qed.

Lemma exits_bind {A B} (m : py F A) (f : A -> py F B) :
  exits_only Q m -> (forall a, exits_only Q (f a)) -> exits_only Q (bind m f).
Proof.
  destruct m as [t [a|e|c]]; intros Hm Hf c' H.
  - rewrite bind_return in H. exact (Hf a c' H).
  - discriminate H.
  - unfold bind in H. cbn in H. inversion H. subst. now apply Hm.
Qed.

Lemma exits_try_except {A} (body : py F A) handler :
  exits_only Q body -> (forall e, exits_only Q (handler e)) ->
  exits_only Q (try_except body handler).
Proof.
  unfold try_except. destruct body as [t [a|e|c]]; intros Hm Hh; try exact Hm.
  specialize (Hh e). destruct (handler e) as [t' r]. exact Hh.
Qed.

Lemma exits_map_py {A B} (f : A -> py F B) xs :
  (forall x, exits_only Q (f x)) -> exits_only Q (map_py f xs).
Proof.
  intros Hf. induction xs as [|x xs IH]; cbn [map_py].
  - apply exits_ret.
  - apply exits_bind; [apply Hf|]. intros y.
    apply exits_bind; [apply IH|]. intros ys. apply exits_ret.
Qed.

Lemma exits_for_each {A} (body : A -> py F unit) xs :
  (forall x, exits_only Q (body x)) -> exits_only Q (for_each xs body).
Proof.
  intros Hb. induction xs as [|x xs IH]; cbn [for_each].
  - apply exits_ret.
  - apply exits_bind; [apply Hb | intros _; apply IH].
Qed.

Lemma exits_fold_py {A S} (body : S -> A -> py F S) xs s :
  (forall s x, exits_only Q (body s x)) -> exits_only Q (fold_py body xs s).
Proof.
  intros Hb. revert s. induction xs as [|x xs IH]; intros s; cbn [fold_py].
  - apply exits_ret.
  - apply exits_bind; [apply Hb | intros s'; apply IH].
Qed.

End Exits.

(** Takes apart a goal that says where a computation may call [sys.exit]. *)
Ltac exits :=
  repeat first
    [ apply exits_ret | apply exits_raise | apply exits_raised | apply exits_emit
    | apply exits_sys_exit; solve [auto]
    | apply exits_bind; [ | intros ? ]
    | apply exits_try_except; [ | intros ? ]
    | apply exits_map_py; intros ?
    | apply exits_for_each; intros ?
    | apply exits_fold_py; intros ? ?
    | match goal with
      | |- exits_only _ (match ?x with _ => _ end) => destruct x
      end ].

Section ExitsClient.
Context {F R : Type}.
Variable w : World F R.
Variable Q : option Z -> Prop.

Lemma exits_array_from_list {T} `{NdArray F T} (arrays : list T) :
  (forall arr before after, exits_only Q (np_pad arr before after)) ->
  exits_only Q (array_from_list arrays).
Proof.
  intros Hpad. unfold array_from_list, max_, assert_, shape0, np_stack. exits; apply Hpad.
Qed.

Lemma exits_path_generator d listing : exits_only Q (path_generator w d listing).
Proof.
  induction listing as [|f rest IH]; cbn [path_generator].
  - apply exits_ret.
  - unfold os_path_join, os_path_isfile. exits; exact IH.
Qed.

Lemma exits_load_images d n : exits_only Q (load_images w d n).
Proof.
  unfold load_images, assert_, os_listdir, os_path_isfile.
  apply exits_bind; [exits|]. intros _.
  apply exits_bind; [exits|]. intros listing.
  apply exits_bind; [exits|]. intros is_file.
  apply exits_bind.
  - destruct is_file; [apply exits_ret | apply exits_path_generator].
  - intros paths. apply exits_map_py. intros p. unfold load_image. exits.
Qed.

Lemma exits_infer_batch FLAGS m latencies kb :
  exits_only Q (infer_batch w FLAGS m latencies kb).
Proof.
  unfold infer_batch. destruct kb as [k batch].
  apply exits_bind.
  - destruct (preprocess FLAGS); [|apply exits_ret]. cbv zeta.
    apply exits_bind.
    + apply exits_fold_py. intros [samples latency] img. unfold preprocess_image. exits.
    + intros [samples latency]. apply exits_bind; [|intros; apply exits_ret].
      apply exits_array_from_list. intros. cbn. exits.
  - intros [data lat']. cbn [generate_io app].
    unfold set_data_from_numpy, triton_infer, np_argmax_axis1, np_argmax, index2, print.
    exits.
Qed.

(** After a successful parse the client leaves through [sys.exit] in two
    places only: line 143, with no code, and line 192, with 1. *)
Lemma exits_after_parse (FLAGS : Namespace) :
  Q None -> Q (Some 1%Z) ->
  exits_only Q
    (triton_client <-
       try_except (InferenceServerClient w (url FLAGS) (verbose FLAGS))
                  (fun e => print [("channel creation failed: " ++ str e)%string] ;;
                            sys_exit None) ;;
     print ["Loading images"] ;;
     image_data <- load_images w (match img_dir FLAGS with
                                  | Some d => Some d
                                  | None => img FLAGS
                                  end) 15 ;;
     image_data <- array_from_list image_data ;;
     print ["Images loaded"] ;;
     latencies <- fold_py (infer_batch w FLAGS (model_name FLAGS))
                    (enumerate (batcher image_data (batch_size FLAGS) (n_iter FLAGS)))
                    [] ;;
     report w FLAGS latencies).
Proof.
  intros Hnone Hone.
  apply exits_bind.
  { unfold InferenceServerClient, print. exits. }
  intros _. apply exits_bind; [unfold print; exits|]. intros _.
  apply exits_bind; [apply exits_load_images|]. intros images.
  apply exits_bind.
  { apply exits_array_from_list. intros. cbn. exits. }
  intros image_data. apply exits_bind; [unfold print; exits|]. intros _.
  apply exits_bind.
  { apply exits_fold_py. intros. apply exits_infer_batch. }
  intros latencies. unfold report, get_inference_statistics, print. exits.
Qed.

End ExitsClient.

Section ExitStatus.
Context {F R : Type}.
Variable w : World F R.

(** X16. The exit status of a run is 0, 1 or 2. It is 2 exactly when
    [parse_args] ends in a usage error; it is 0 exactly when the run ends
    normally, leaves through the [sys.exit()] of line 143, or is ended by
    the help of [-h] inside [parse_args]; every uncaught exception and the
    [sys.exit(1)] of line 192 give 1. *)
Theorem main_exit_status (argv : list arg) :
  let r := result (main w argv) in
  (exit_status r = 0 \/ exit_status r = 1 \/ exit_status r = 2)%Z /\
  (exit_status r = 2%Z <-> exists message, parse_args (F := F) argv = parser_error message) /\
  (exit_status r = 0%Z <->
   r = Return tt \/ r = SystemExit None \/
   (gives_help argv = true /\ parse_args (F := F) argv = help_exit /\
    main w argv = help_exit)).
Proof.
  intros r. subst r.
  destruct (parse_args_cases (F := F) argv) as [[FLAGS Hp]|[[message Hp]|[Hh Hp]]].
  - assert (Hexit : exits_only (fun c => c = None \/ c = Some 1%Z) (main w argv)).
    { unfold main. rewrite Hp, bind_ret_l. apply exits_after_parse; auto. }
    assert (Hnot : ~ exists message, parse_args (F := F) argv = parser_error message).
    { intros [message Hm]. rewrite Hp in Hm. discriminate Hm. }
    assert (Hnoh : ~ (gives_help argv = true /\ parse_args (F := F) argv = help_exit /\
                      main w argv = help_exit)).
    { intros (_ & Hm & _). rewrite Hp in Hm. discriminate Hm. }
    unfold exits_only in Hexit.
    destruct (result (main w argv)) as [[]|e|c] eqn:E.
    + cbn. split; [left; reflexivity|].
      split; [split; [discriminate | intros Hm; destruct (Hnot Hm)]|].
      split; [intros _; left; reflexivity | reflexivity].
    + cbn. split; [right; left; reflexivity|].
      split; [split; [discriminate | intros Hm; destruct (Hnot Hm)]|].
      split; [discriminate | intros [H|[H|H]]; [discriminate H..|destruct (Hnoh H)]].
    + destruct (Hexit c eq_refl) as [->| ->]; cbn.
      * split; [left; reflexivity|].
        split; [split; [discriminate | intros Hm; destruct (Hnot Hm)]|].
        split; [intros _; right; left; reflexivity | reflexivity].
      * split; [right; left; reflexivity|].
        split; [split; [discriminate | intros Hm; destruct (Hnot Hm)]|].
        split; [discriminate | intros [H|[H|H]]; [discriminate H..|destruct (Hnoh H)]].
  - assert (Hmain : main w argv = parser_error message)
      by (unfold main; rewrite Hp; reflexivity).
    rewrite Hmain. cbn. split; [right; right; reflexivity|].
    split; [split; [intros _; now exists message | reflexivity]|].
    split; [discriminate | intros [H|[H|(_ & _ & H)]]; discriminate H].
  - assert (Hmain : main w argv = help_exit)
      by (unfold main; rewrite Hp; reflexivity).
    rewrite Hmain. cbn. split; [left; reflexivity|].
    split; [split; [discriminate | intros [message Hm]; rewrite Hp in Hm; discriminate Hm]|].
    split; [intros _; right; right; repeat split; assumption | reflexivity].
Qed.

End ExitStatus.

Lemma main_exit_status_demo :
  exit_status (result (main (demo_world true 1) [Opt_img_dir "images"])) = 0%Z /\
  exit_status (result (main (demo_world true 1) [Opt_img "images/a.jpg"])) = 1%Z /\
  exit_status (result (main (demo_world true 1) [Opt_n_iter None])) = 2%Z /\
  exit_status (result (main (demo_world true 1) [Arg_unrecognized "stray"])) = 2%Z /\
  exit_status (result (main (demo_world true 1) [Opt_no_value "-u/--url"])) = 2%Z /\
  exit_status (result (main (demo_world true 1) [Opt_help; Opt_n_iter None])) = 0%Z.
Proof. repeat split. Qed.

(** ** What the loop sends without [--preprocess] *)

Section RawRequests.
Context {F R : Type}.
Variable w : World F R.

(** One pass of the loop body sends the batch it was given, whatever the
    server answers. *)
Lemma infer_batch_raw (FLAGS : Namespace) (m : string) (latencies : list R) (k : nat)
    (batch : list (list byte)) :
  preprocess FLAGS = false ->
  filter is_infer (trace (infer_batch w FLAGS m latencies (k, batch)))
  = [raw_request FLAGS m batch].
Proof.
  intros Hpre. unfold infer_batch. rewrite Hpre, bind_ret_l.
  cbn [generate_io app negb batch_shape]. unfold set_data_from_numpy.
  cbn [in_datatype in_shape in_name np_to_triton_dtype batch_shape].
  rewrite string_eqb_refl, shape_eqb_refl. cbn [negb]. rewrite bind_ret_l.
  rewrite filter_bind_silent_r.
  - unfold triton_infer. destruct (server_infer w k _ _ _); reflexivity.
  - intros results.
    apply silent_bind; [apply silent_np_argmax_axis1; reflexivity|]. intros maxs.
    apply silent_bind; [|intros; apply silent_ret].
    destruct (statistics FLAGS); [|apply silent_ret].
    apply silent_for_each. intros i.
    apply silent_bind; [apply silent_index2; reflexivity|]. intros x.
    apply silent_print. reflexivity.
Qed.

(** X17. Without [--preprocess], a loop that completes has sent every
    batch exactly once, in the order the batcher gave them, each as one
    UINT8 request that carries the batch's rows unchanged. *)
Theorem loop_sends_each_batch_once (FLAGS : Namespace) (m : string)
    (batches : list (nat * list (list byte))) (latencies latencies' : list R)
    (t : list (event F)) :
  preprocess FLAGS = false ->
  fold_py (infer_batch w FLAGS m) batches latencies = (t, Return latencies') ->
  filter is_infer t = map (fun kb => raw_request FLAGS m (snd kb)) batches.
Proof.
  intros Hpre. revert latencies t.
  induction batches as [|[k batch] rest IH]; intros latencies t H.
  - cbn in H. inversion H. reflexivity.
  - cbn [fold_py] in H.
    apply bind_eq_return in H as (t1 & lat1 & t2 & Hstep & H & ->).
    rewrite filter_app. cbn [map snd]. rewrite (IH _ _ H).
    pose proof (infer_batch_raw FLAGS m latencies k batch Hpre) as E.
    rewrite Hstep in E. cbn [trace fst] in E. now rewrite E.
Qed.

End RawRequests.

Lemma loop_sends_each_batch_once_witness :
  let FLAGS := mkNamespace false "localhost:8001" 1 (-1) "dali_backend" "INPUT" "OUTPUT"
                           false false None (Some "images") in
  let batches := [(0, [[x01; x02; x03]]); (1, [[xff; x00; x00]])] in
  filter is_infer
    (trace (fold_py (infer_batch (demo_world true 1) FLAGS "dali_backend") batches []))
  = map (fun kb => raw_request FLAGS "dali_backend" (snd kb)) batches.
Proof.
  apply (loop_sends_each_batch_once (demo_world true 1)
           (mkNamespace false "localhost:8001" 1 (-1) "dali_backend" "INPUT" "OUTPUT"
                        false false None (Some "images"))
           "dali_backend" [(0, [[x01; x02; x03]]); (1, [[xff; x00; x00]])] [] []);
    reflexivity.
Defined.
